(** * discord-dns-webhook: the polling loop of [main.py]

    A shallow embedding of [src/main.py] and the properties of its
    staleness test, change detection, cache persistence and sleep
    computation.

    Modelling choices, all visible in the definitions below:
    - timestamps ([time.time()], [answers.expiration]) are seconds in [Z];
      only their order and differences are used by the program;
    - the response cache [responses] is a Python dict, here a
      [gmap string DnsResponse]; the configuration is a dict that is only
      iterated and read, here an association list in insertion order;
    - a file holds the YAML document that [yaml.load] reads back from what
      [yaml.dump] wrote; the file system is a map from paths to documents;
    - the DNS resolver and the webhook endpoint are oracles of the
      environment; an uncaught Python exception is the [Raised] outcome. *)

From Stdlib Require Import ZArith String.
From stdpp Require Import gmap strings list fin_maps.

Local Open Scope Z_scope.

(** ** Data model (lines 13-14) *)

Record DnsResponse := mkDnsResponse {
  ipv4 : string;
  expiry : Z;
  response_time : Z
}.

Record HostConfiguration := mkHostConfiguration {
  name : string;
  webhook_uri : string
}.

#[global] Instance DnsResponse_eq_dec : EqDecision DnsResponse.
Proof. solve_decision. Defined.

#[global] Instance HostConfiguration_eq_dec : EqDecision HostConfiguration.
Proof. solve_decision. Defined.

(** ** YAML documents and files *)

Inductive yaml_scalar :=
| YStr (s : string)
| YNum (z : Z).

(** What [yaml.load] returns for a file: [None] for an empty document, a
    mapping of mappings for a dumped cache, or something else. *)
Inductive yaml_doc :=
| YNull
| YScalar (v : yaml_scalar)
| YMap (items : gmap string (gmap string yaml_scalar)).

#[global] Instance yaml_scalar_eq_dec : EqDecision yaml_scalar.
Proof. solve_decision. Defined.

(** ** Exceptions, log records, environment *)

Inductive exn :=
| FileNotFoundError
| AttributeError      (* [cache.items()] on a document that is not a mapping *)
| MalformedEntry      (* [v['ipv4']] and the like on an entry without the field *)
| ValueError          (* [min()] of an empty sequence *)
| DNSException        (* raised by [dns.resolver.query] *)
| RequestException    (* raised by [requests.post] *)
| KeyError.           (* [config[host]] on a missing key *)

#[global] Instance exn_eq_dec : EqDecision exn.
Proof. solve_decision. Defined.

Inductive level := DEBUG | INFO | ERROR.

Inductive message :=
| CacheFileNotFound (path : string)                       (* line 33 *)
| RetrievingARecord (host : string)                       (* line 65 *)
| ReceivedResponse (response : DnsResponse)               (* line 72 *)
| CachedResponses (responses : gmap string DnsResponse)   (* line 85 *)
| IpAddressChanged (host new_ipv4 : string) (old_ipv4 : option string) (* line 99 *)
| Sleeping (sleep_time : Z).                              (* line 108 *)

(** The answer of [dns.resolver.query(host, 'A')]: the address of
    [answers[0]] and [answers.expiration]. *)
Record Answer := mkAnswer {
  address : string;
  expiration : Z
}.

(** [requests.post] either raises (transport failure) or returns a response
    with a status code, which [_notify_webhook] does not look at. *)
Inductive http_result :=
| ConnectionFailed
| HttpStatus (code : Z).

(** The outside world, as functions of the time of the call. *)
Record Env := mkEnv {
  dns_resolver_query : string -> Z -> option Answer;
  dns_elapsed : string -> Z -> Z;
  requests_post : string -> string -> Z -> http_result;
  post_elapsed : string -> string -> Z -> Z
}.

(** ** Program state

    [responses] is the one dict object that [main] creates at line 84;
    every name bound to it ([responses] in [main], the argument bound by
    [functools.partial]) reads this field. *)
Record World := mkWorld {
  clock : Z;
  files : gmap string yaml_doc;
  responses : gmap string DnsResponse;
  log : list (level * message);
  posts : list (string * string)
}.

Inductive outcome (A : Type) :=
| Returned (a : A) (w : World)
| Raised (e : exn) (w : World).
Arguments Returned {A} a w.
Arguments Raised {A} e w.

Definition final_world {A} (o : outcome A) : World :=
  match o with
  | Returned _ w => w
  | Raised _ w => w
  end.

Definition M (A : Type) : Type := World -> outcome A.

Definition ret {A} (a : A) : M A := fun w => Returned a w.

Definition bind {A B} (m : M A) (k : A -> M B) : M B :=
  fun w =>
    match m w with
    | Returned a w' => k a w'
    | Raised e w' => Raised e w'
    end.

Definition raise {A} (e : exn) : M A := fun w => Raised e w.

(** [try: body except e: handler] *)
Definition try_except {A} (body : M A) (e : exn) (handler : M A) : M A :=
  fun w =>
    match body w with
    | Returned a w' => Returned a w'
    | Raised e' w' => if decide (e' = e) then handler w' else Raised e' w'
    end.

Declare Scope prog_scope.
Delimit Scope prog_scope with prog.
Notation "x <- c ;; k" := (bind c (fun x => k))
  (at level 100, c at next level, right associativity) : prog_scope.
Notation "c ;; k" := (bind c (fun _ => k))
  (at level 100, right associativity) : prog_scope.
Local Open Scope prog_scope.

(** ** Primitive effects *)

Definition advance (d : Z) (w : World) : World :=
  mkWorld (clock w + d) (files w) (responses w) (log w) (posts w).

Definition log_record (l : level) (m : message) (w : World) : World :=
  mkWorld (clock w) (files w) (responses w) (log w ++ [(l, m)]) (posts w).

Definition write_file (path : string) (doc : yaml_doc) (w : World) : World :=
  mkWorld (clock w) (<[path := doc]> (files w)) (responses w) (log w) (posts w).

Definition set_responses (d : gmap string DnsResponse) (w : World) : World :=
  mkWorld (clock w) (files w) d (log w) (posts w).

Definition record_post (uri content : string) (w : World) : World :=
  mkWorld (clock w) (files w) (responses w) (log w) (posts w ++ [(uri, content)]).

Definition time_time : M Z := fun w => Returned (clock w) w.

Definition elapse (d : Z) : M unit := fun w => Returned tt (advance d w).

Definition time_sleep (seconds : Z) : M unit := elapse seconds.

Definition logging (l : level) (m : message) : M unit :=
  fun w => Returned tt (log_record l m w).

Definition open_read (path : string) : M yaml_doc :=
  fun w =>
    match files w !! path with
    | Some doc => Returned doc w
    | None => Raised FileNotFoundError w
    end.

Definition open_write (path : string) (doc : yaml_doc) : M unit :=
  fun w => Returned tt (write_file path doc w).

(** Reading and updating the dict object. *)
Definition responses_get (host : string) : M (option DnsResponse) :=
  fun w => Returned (responses w !! host) w.

Definition responses_setitem (host : string) (response : DnsResponse) : M unit :=
  fun w => Returned tt (set_responses (<[host := response]> (responses w)) w).

Definition responses_object : M (gmap string DnsResponse) :=
  fun w => Returned (responses w) w.

Definition responses_bind (d : gmap string DnsResponse) : M unit :=
  fun w => Returned tt (set_responses d w).

(** ** The cache file (lines 23-42) *)

(** [v._asdict()] of a [DnsResponse]. *)
Definition _asdict (v : DnsResponse) : gmap string yaml_scalar :=
  <["ipv4" := YStr (ipv4 v)]>
    (<["expiry" := YNum (expiry v)]>
      (<["response_time" := YNum (response_time v)]> ∅)).

(** [DnsResponse(v['ipv4'], v['expiry'], v['response_time'])] for one entry
    of the loaded document; [None] when a field is missing.  The record of
    the model is typed, so a field holding a scalar of another kind than
    [_check_dns] produces is reported as missing as well. *)
Definition response_of_entry (v : gmap string yaml_scalar) : option DnsResponse :=
  match v !! "ipv4", v !! "expiry", v !! "response_time" with
  | Some (YStr a), Some (YNum e), Some (YNum t) => Some (mkDnsResponse a e t)
  | _, _, _ => None
  end.

Definition _load_response_cache (path : string) : M (gmap string DnsResponse) :=
  try_except
    (cache <- open_read path ;;
     match cache with
     | YNull => ret ∅
     | YScalar _ => raise AttributeError
     | YMap items =>
         if decide (map_Forall (fun _ v => is_Some (response_of_entry v)) items)
         then ret (omap response_of_entry items)
         else raise MalformedEntry
     end)
    FileNotFoundError
    (logging ERROR (CacheFileNotFound path) ;;
     ret ∅).

Definition _save_response_cache (path : string)
    (responses : gmap string DnsResponse) : M unit :=
  let dict_values := _asdict <$> responses in
  open_write path (YMap dict_values).

(** ** Staleness (lines 45-51) *)

Definition _is_response_stale (responses : gmap string DnsResponse)
    (host : string) : M bool :=
  match responses !! host with
  | None => ret true
  | Some response =>
      now <- time_time ;;
      ret (expiry response <? now)
  end.

(** ** Notification (lines 54-61) *)

Definition notification_content (host : string) (host_config : HostConfiguration)
    (response : DnsResponse) : string :=
  "IP address for **" +:+ name host_config +:+ "** (" +:+ host
    +:+ ") is now **" +:+ ipv4 response +:+ "**".

Definition _notify_webhook (E : Env) (host : string)
    (host_config : HostConfiguration) (response : DnsResponse) : M unit :=
  let content := notification_content host host_config response in
  fun w =>
    let uri := webhook_uri host_config in
    let t := clock w in
    let w' := advance (post_elapsed E uri content t) (record_post uri content w) in
    match requests_post E uri content t with
    | ConnectionFailed => Raised RequestException w'
    | HttpStatus _ => Returned tt w'
    end.

(** ** Resolution (lines 64-74) *)

Definition _check_dns (E : Env) (host : string) : M DnsResponse :=
  logging DEBUG (RetrievingARecord host) ;;
  t <- time_time ;;
  elapse (dns_elapsed E host t) ;;
  match dns_resolver_query E host t with
  | None => raise DNSException
  | Some answers =>
      now <- time_time ;;
      let response := mkDnsResponse (address answers) (expiration answers) now in
      logging DEBUG (ReceivedResponse response) ;;
      ret response
  end.

(** ** The main loop (lines 77-110) *)

(** [min] of a sequence; [None] stands for the [ValueError] that Python
    raises on an empty one. *)
Definition py_min (xs : list Z) : option Z :=
  match xs with
  | [] => None
  | x :: rest => Some (foldl Z.min x rest)
  end.

(** [responses.values()] *)
Definition values (d : gmap string DnsResponse) : list DnsResponse :=
  (map_to_list d).*2.

(** Line 105: [min(map(operator.attrgetter('expiry'), responses.values()))]. *)
Definition next_check (d : gmap string DnsResponse) : option Z :=
  py_min (expiry <$> values d).

(** The condition of line 97, the change detector of the loop. *)
Definition is_notable (old_response : option DnsResponse)
    (response : DnsResponse) : bool :=
  match old_response with
  | None => true
  | Some old => if decide (ipv4 old = ipv4 response) then false else true
  end.

(** [config[host]] and [config.keys()] on the configuration dict. *)
Fixpoint config_get (config : list (string * HostConfiguration))
    (host : string) : option HostConfiguration :=
  match config with
  | [] => None
  | (k, host_config) :: rest =>
      if decide (k = host) then Some host_config else config_get rest host
  end.

Definition config_getitem (config : list (string * HostConfiguration))
    (host : string) : M HostConfiguration :=
  match config_get config host with
  | Some host_config => ret host_config
  | None => raise KeyError
  end.

Definition config_keys (config : list (string * HostConfiguration)) : list string :=
  config.*1.

(** [functools.partial(f, responses)]: the bound argument is the dict object
    itself, so each call passes the object as it is at the time of the
    call. *)
Definition functools_partial {A B} (f : gmap string DnsResponse -> A -> M B)
    : A -> M B :=
  fun a => (d <- responses_object ;; f d a).

Section Loop.
Variable E : Env.
Variable config : list (string * HostConfiguration).
Variable response_cache_path : string.
(** Built once, at line 87, before the loop is entered. *)
Variable stale_check_predicate : string -> M bool.

(** Lines 93-103, the body of the [for] loop. *)
Definition loop_body (stale_host : string) : M unit :=
  response <- _check_dns E stale_host ;;
  old_response <- responses_get stale_host ;;
  (if is_notable old_response response then
     let old_ipv4 := ipv4 <$> old_response in
     logging INFO (IpAddressChanged stale_host (ipv4 response) old_ipv4) ;;
     host_config <- config_getitem config stale_host ;;
     _notify_webhook E stale_host host_config response
   else ret tt) ;;
  responses_setitem stale_host response ;;
  d <- responses_object ;;
  _save_response_cache response_cache_path d.

(** Lines 90-92: [filter] is lazy, so the predicate is applied to a key
    when the [for] loop asks for the next stale host, after the body has
    run for the stale keys before it. *)
Fixpoint for_stale_hosts (keys : list string) : M unit :=
  match keys with
  | [] => ret tt
  | host :: rest =>
      stale <- stale_check_predicate host ;;
      (if stale : bool then loop_body host else ret tt) ;;
      for_stale_hosts rest
  end.

(** Lines 105-110. *)
Definition schedule_sleep : M Z :=
  d <- responses_object ;;
  match next_check d with
  | None => raise ValueError
  | Some next_check =>
      now <- time_time ;;
      let sleep_time := Z.max 30 (next_check - now) in
      logging DEBUG (Sleeping sleep_time) ;;
      time_sleep sleep_time ;;
      ret sleep_time
  end.

(** One iteration of [while True]; the result is the time slept. *)
Definition cycle : M Z :=
  for_stale_hosts (config_keys config) ;;
  schedule_sleep.

(** The first [n] iterations of [while True]. *)
Fixpoint main_loop (n : nat) : M unit :=
  match n with
  | O => ret tt
  | S n' => cycle ;; main_loop n'
  end.
End Loop.

(** Lines 84-85: the cache is loaded into the dict object [responses]. *)
Definition main_startup (response_cache_path : string) : M unit :=
  d <- _load_response_cache response_cache_path ;;
  responses_bind d ;;
  logging INFO (CachedResponses d).

(** Line 87. *)
Definition stale_check_predicate : string -> M bool :=
  functools_partial _is_response_stale.

(** Lines 83-110 of [main], run for [n] iterations of the loop.  [config] is
    the result of [_load_configuration] and [response_cache_path] the value
    of the [CACHE_FILE] setting. *)
Definition main (E : Env) (config : list (string * HostConfiguration))
    (response_cache_path : string) (n : nat) : M unit :=
  main_startup response_cache_path ;;
  let predicate := stale_check_predicate in
  main_loop E config response_cache_path predicate n.

#[global] Instance message_eq_dec : EqDecision message.
Proof. solve_decision. Defined.

(** Number of DNS queries for [host] recorded in a log (line 65 runs once
    per query). *)
Definition dns_queries (host : string) (l : list (level * message)) : nat :=
  length (filter (fun e => e.2 = RetrievingARecord host) l).

(** ** Notions used in the statements *)

(** One step of the scan: the predicate applied to a key, and the loop body
    when the key is stale. *)
Definition scan_step (E : Env) (config : list (string * HostConfiguration))
    (path : string) (predicate : string -> M bool) (host : string) : M unit :=
  stale <- predicate host ;;
  if stale : bool then loop_body E config path host else ret tt.

(** The state after line 65 and the query of line 67. *)
Definition queried (E : Env) (host : string) (w : World) : World :=
  advance (dns_elapsed E host (clock w))
    (log_record DEBUG (RetrievingARecord host) w).

(** The response built at line 71 from a successful answer. *)
Definition response_of_answer (E : Env) (host : string) (w : World)
    (answers : Answer) : DnsResponse :=
  mkDnsResponse (address answers) (expiration answers)
    (clock w + dns_elapsed E host (clock w)).

(** The state after lines 102-103. *)
Definition stored (path host : string) (response : DnsResponse) (w : World)
    : World :=
  let d := <[host := response]> (responses w) in
  write_file path (YMap (_asdict <$> d)) (set_responses d w).

(** The state after lines 108-110. *)
Definition slept (sleep_time : Z) (w : World) : World :=
  advance sleep_time (log_record DEBUG (Sleeping sleep_time) w).

(** What [main] still runs after the loop body has returned for a host: the
    scan of the keys after it, the sleep, and [n] further iterations. *)
Definition rest_of_run (E : Env) (config : list (string * HostConfiguration))
    (path : string) (predicate : string -> M bool) (rest : list string)
    (n : nat) : M unit :=
  for_stale_hosts E config path predicate rest ;;
  schedule_sleep ;;
  main_loop E config path predicate n.

(** The resolver and the endpoint take no negative time. *)
Definition causal (E : Env) : Prop :=
  (∀ host t, 0 <= dns_elapsed E host t) ∧
  (∀ uri content t, 0 <= post_elapsed E uri content t).

(** [m] is the least expiry over all entries of [d]. *)
Definition least_expiry (d : gmap string DnsResponse) (m : Z) : Prop :=
  (∃ h r, d !! h = Some r ∧ expiry r = m) ∧
  (∀ h r, d !! h = Some r → m <= expiry r).

(** While the clock has not passed the expiry stored for [host], the entry
    stays and no query is made for the host. *)
Definition kept_fresh (host : string) (r : DnsResponse) (w w' : World) : Prop :=
  clock w <= clock w' ∧
  (responses w !! host = Some r →
   clock w' <= expiry r →
   responses w' !! host = Some r ∧
   dns_queries host (log w') = dns_queries host (log w)).

(** ** The configuration file (lines 16-20) *)

(** [HostConfiguration(v['name'], v['webhook_uri'])] for one entry of the
    loaded document; [None] when a field is missing (or, the record of the
    model being typed, is not a string). *)
Definition configuration_of_entry (v : gmap string yaml_scalar)
    : option HostConfiguration :=
  match v !! "name", v !! "webhook_uri" with
  | Some (YStr n), Some (YStr u) => Some (mkHostConfiguration n u)
  | _, _ => None
  end.

(** There is no [try] here and no test for an empty document: a missing
    file raises [FileNotFoundError] and [None.items()] raises
    [AttributeError].  [yaml_doc] keeps no order of the keys of a mapping;
    the dict is listed in the order of [map_to_list]. *)
Definition _load_configuration (path : string)
    : M (list (string * HostConfiguration)) :=
  data <- open_read path ;;
  match data with
  | YNull => raise AttributeError
  | YScalar _ => raise AttributeError
  | YMap items =>
      if decide (map_Forall (fun _ v => is_Some (configuration_of_entry v)) items)
      then ret (map_to_list (omap configuration_of_entry items))
      else raise MalformedEntry
  end.

(** ** Further notions used in the statements *)

(** What a restart would load from the cache file, when the load returns. *)
Definition reload (path : string) (w : World)
    : option (gmap string DnsResponse) :=
  match _load_response_cache path w with
  | Returned d _ => Some d
  | Raised _ _ => None
  end.

(** The cache file loads as the store after, if it did before. *)
Definition synced (path : string) (w w' : World) : Prop :=
  reload path w = Some (responses w) → reload path w' = Some (responses w').

(** A request that the configuration accounts for: the endpoint of a
    configured host, with the message of that host. *)
Definition configured_post (config : list (string * HostConfiguration))
    (p : string * string) : Prop :=
  ∃ host host_config response,
    host ∈ config_keys config ∧
    config_get config host = Some host_config ∧
    p = (webhook_uri host_config,
         notification_content host host_config response).

(** The requests made between two states all satisfy [Q]. *)
Definition posts_between (Q : string * string -> Prop) (w w' : World) : Prop :=
  ∃ new, posts w' = posts w ++ new ∧ Forall Q new.

(** An entry built from an answer of the resolver for [host]. *)
Definition resolved_entry (E : Env) (host : string) (r : DnsResponse) : Prop :=
  ∃ t answers,
    dns_resolver_query E host t = Some answers ∧
    ipv4 r = address answers ∧
    expiry r = expiration answers.

(** Every entry of the later store was in the earlier one or was built from
    an answer of the resolver for a configured host. *)
Definition from_before_or_resolved (E : Env)
    (config : list (string * HostConfiguration)) (w w' : World) : Prop :=
  ∀ host r,
    responses w' !! host = Some r →
    responses w !! host = Some r ∨
    (host ∈ config_keys config ∧ resolved_entry E host r).

(** The host has no entry, or one whose expiry has passed. *)
Definition stale_in (host : string) (w : World) : Prop :=
  match responses w !! host with
  | None => True
  | Some r => expiry r < clock w
  end.

(** Every key of the configuration is present in the store and its expiry
    has not passed. *)
Definition all_fresh (keys : list string) (w : World) : Prop :=
  Forall (fun host => ∃ r, responses w !! host = Some r ∧ clock w <= expiry r)
    keys.

(** A cache document with an entry that lacks a field. *)
Definition corrupt_cache_doc : yaml_doc :=
  YMap {["example.com" :=
           <["ipv4" := YStr "1.2.3.4"]> {["expiry" := YNum 1300]}]}.

Definition world_with_file (path : string) (doc : yaml_doc) : World :=
  mkWorld 1000 {[path := doc]} ∅ [] [].

(** ** Sample runs

    A resolver that fails for ["down.example"] and answers [1.2.3.4] with a
    TTL of 300 seconds for every other host, in one second; a webhook
    endpoint that answers in two seconds. *)
Definition sample_resolver (host : string) (t : Z) : option Answer :=
  if decide (host = "down.example") then None
  else Some (mkAnswer "1.2.3.4" (t + 1 + 300)).

Definition env_http (result : http_result) : Env :=
  mkEnv sample_resolver (fun _ _ => 1) (fun _ _ _ => result) (fun _ _ _ => 2).

Definition env_ok : Env := env_http (HttpStatus 204).
Definition env_http_500 : Env := env_http (HttpStatus 500).
Definition env_unreachable : Env := env_http ConnectionFailed.

Definition sample_config : list (string * HostConfiguration) :=
  [("example.com", mkHostConfiguration "Example" "https://hooks.example/1")].

Definition two_hosts_config : list (string * HostConfiguration) :=
  [("down.example", mkHostConfiguration "Down" "https://hooks.example/0");
   ("example.com", mkHostConfiguration "Example" "https://hooks.example/1")].

Definition world_at (t : Z) (d : gmap string DnsResponse) : World :=
  mkWorld t ∅ d [] [].

Definition fresh_world : World := world_at 1000 ∅.

(** A store that only holds a host no longer in the configuration, and the
    state after the loop body has run for ["example.com"] from there. *)
Definition orphan_world : World :=
  world_at 1000 {["removed.example" := mkDnsResponse "9.9.9.9" 1040 700]}.

Definition first_resolution : World :=
  final_world
    (loop_body env_ok sample_config "response_cache.yml" "example.com"
       orphan_world).

(** * Properties *)

(** ** Minimum of the expiries *)

Lemma foldl_min_le (xs : list Z) (a : Z) :
  foldl Z.min a xs <= a ∧ ∀ x, x ∈ xs → foldl Z.min a xs <= x.
Proof.
  revert a. induction xs as [|y ys IH]; intros a; simpl.
  - split; [lia | intros x Hx; by apply elem_of_nil in Hx].
  - destruct (IH (Z.min a y)) as [Ha Hys]. split; [lia |].
    intros x Hx. apply elem_of_cons in Hx as [-> | Hx]; [lia | by apply Hys].
Qed.

Lemma foldl_min_elem (xs : list Z) (a : Z) :
  foldl Z.min a xs ∈ a :: xs.
Proof.
  revert a. induction xs as [|y ys IH]; intros a; simpl.
  - apply list_elem_of_here.
  - specialize (IH (Z.min a y)).
    apply elem_of_cons in IH as [Heq | Hin].
    + rewrite Heq. destruct (Z.min_spec a y) as [[_ ->] | [_ ->]].
      * apply list_elem_of_here.
      * apply list_elem_of_further, list_elem_of_here.
    + by do 2 apply list_elem_of_further.
Qed.

Lemma py_min_Some (xs : list Z) (m : Z) :
  py_min xs = Some m → m ∈ xs ∧ ∀ x, x ∈ xs → m <= x.
Proof.
  destruct xs as [|a xs]; simpl; [done |].
  intros [= <-]. split; [apply foldl_min_elem |].
  intros x Hx. destruct (foldl_min_le xs a) as [Ha Hxs].
  apply elem_of_cons in Hx as [-> | Hx]; [done | by apply Hxs].
Qed.

Lemma elem_of_values (d : gmap string DnsResponse) (r : DnsResponse) :
  r ∈ values d ↔ ∃ h, d !! h = Some r.
Proof.
  unfold values. rewrite list_elem_of_fmap. split.
  - intros [[h r'] [-> Hin]]. exists h. by apply elem_of_map_to_list.
  - intros [h Hh]. exists (h, r). split; [done | by apply elem_of_map_to_list].
Qed.

Lemma next_check_Some (d : gmap string DnsResponse) (m : Z) :
  next_check d = Some m → least_expiry d m.
Proof.
  unfold next_check. intros [Hin Hle]%py_min_Some. split.
  - apply list_elem_of_fmap in Hin as [r [-> Hr]].
    apply elem_of_values in Hr as [h Hh]. by exists h, r.
  - intros h r Hh. apply Hle, list_elem_of_fmap. exists r.
    split; [done |]. apply elem_of_values. by exists h.
Qed.

Lemma next_check_None (d : gmap string DnsResponse) :
  next_check d = None ↔ d = ∅.
Proof.
  unfold next_check, values. split.
  - intros H. apply map_to_list_empty_iff.
    destruct (map_to_list d) as [|[h r] l]; [done | discriminate].
  - intros ->. by rewrite map_to_list_empty.
Qed.

Lemma next_check_nonempty (d : gmap string DnsResponse) :
  d ≠ ∅ → ∃ m, next_check d = Some m ∧ least_expiry d m.
Proof.
  intros Hne. destruct (next_check d) as [m|] eqn:Hm.
  - exists m. split; [done | by apply next_check_Some].
  - by apply next_check_None in Hm.
Qed.

Lemma least_expiry_unique (d : gmap string DnsResponse) (m1 m2 : Z) :
  least_expiry d m1 → least_expiry d m2 → m1 = m2.
Proof.
  intros [(h1 & r1 & H1 & E1) L1] [(h2 & r2 & H2 & E2) L2].
  specialize (L1 _ _ H2). specialize (L2 _ _ H1). lia.
Qed.

(** ** Staleness *)

(** The predicate returns without changing the program state. *)
Lemma is_response_stale_eq (d : gmap string DnsResponse) (host : string) (w : World) :
  _is_response_stale d host w =
  Returned (match d !! host with
            | None => true
            | Some response => expiry response <? clock w
            end) w.
Proof. unfold _is_response_stale. by destruct (d !! host). Qed.

Lemma stale_check_predicate_eq (host : string) (w : World) :
  stale_check_predicate host w =
  Returned (match responses w !! host with
            | None => true
            | Some response => expiry response <? clock w
            end) w.
Proof.
  unfold stale_check_predicate, functools_partial, bind, responses_object.
  apply is_response_stale_eq.
Qed.

(** C3, as the specification states it, fails when the expiry equals the
    current time: the entry is present, [expiry <= now] holds, and the host is
    reported as not stale. *)
Lemma stale_at_expiry_counterexample :
  let r := mkDnsResponse "1.2.3.4" 1000 700 in
  let d : gmap string DnsResponse := {["example.com" := r]} in
  d !! "example.com" = Some r ∧
  expiry r <= clock (world_at 1000 d) ∧
  _is_response_stale d "example.com" (world_at 1000 d)
    = Returned false (world_at 1000 d).
Proof. repeat split; vm_compute; done. Qed.

(** C3 (amended): a host absent from the store is stale; a host present
    with [expiry >= now] is not stale; a host present with [expiry < now] is
    stale.  The test has no effect on the program state. *)
Theorem is_response_stale_spec (d : gmap string DnsResponse) (host : string)
    (w : World) :
  (d !! host = None → _is_response_stale d host w = Returned true w) ∧
  (∀ r, d !! host = Some r → clock w <= expiry r →
        _is_response_stale d host w = Returned false w) ∧
  (∀ r, d !! host = Some r → expiry r < clock w →
        _is_response_stale d host w = Returned true w).
Proof.
  rewrite is_response_stale_eq. repeat split.
  - by intros ->.
  - intros r -> Hle. f_equal. apply Z.ltb_ge. lia.
  - intros r -> Hlt. f_equal. by apply Z.ltb_lt.
Qed.

Lemma is_response_stale_spec_witness :
  let r := mkDnsResponse "1.2.3.4" 1300 1001 in
  let d : gmap string DnsResponse := {["example.com" := r]} in
  _is_response_stale d "absent.example" (world_at 1300 d)
    = Returned true (world_at 1300 d) ∧
  _is_response_stale d "example.com" (world_at 1300 d)
    = Returned false (world_at 1300 d) ∧
  _is_response_stale d "example.com" (world_at 1301 d)
    = Returned true (world_at 1301 d).
Proof.
  intros r d. split; [| split].
  - apply (is_response_stale_spec d "absent.example" (world_at 1300 d)).
    reflexivity.
  - apply (is_response_stale_spec d "example.com" (world_at 1300 d)) with r.
    + reflexivity.
    + simpl. lia.
  - apply (is_response_stale_spec d "example.com" (world_at 1301 d)) with r.
    + reflexivity.
    + simpl. lia.
Defined.

(** ** Change detection *)

(** C4: a change is notable exactly when there is no previous response or
    the previous address differs from the current one; [is_notable (Some r) r]
    is false, also when only expiry or response time differ, and
    [is_notable None r] is true. *)
Theorem is_notable_spec :
  (∀ previous current,
      is_notable previous current = true ↔
      previous = None ∨ ∃ p, previous = Some p ∧ ipv4 p ≠ ipv4 current) ∧
  (∀ r, is_notable (Some r) r = false) ∧
  (∀ a e t e' t',
      is_notable (Some (mkDnsResponse a e t)) (mkDnsResponse a e' t') = false) ∧
  (∀ r, is_notable None r = true).
Proof.
  repeat split.
  - destruct previous as [p|]; simpl; [| by left].
    destruct (decide (ipv4 p = ipv4 current)) as [Heq | Hne]; [done |].
    intros _. right. by exists p.
  - intros [Hnone | (p & -> & Hne)]; [by subst |].
    simpl. by destruct (decide (ipv4 p = ipv4 current)).
  - intros r. simpl. by destruct (decide (ipv4 r = ipv4 r)).
  - intros a e t e' t'. simpl. by destruct (decide (a = a)).
Qed.

(** ** Persistence of the cache *)

Lemma response_of_asdict (v : DnsResponse) :
  response_of_entry (_asdict v) = Some v.
Proof. by destruct v. Qed.

Lemma omap_response_of_asdict (m : gmap string DnsResponse) :
  omap response_of_entry (_asdict <$> m) = m.
Proof.
  apply map_eq. intros host.
  rewrite lookup_omap, lookup_fmap.
  destruct (m !! host) as [v|]; simpl; [apply response_of_asdict | done].
Qed.

Lemma asdict_entries_well_formed (m : gmap string DnsResponse) :
  map_Forall (fun _ v => is_Some (response_of_entry v)) (_asdict <$> m).
Proof.
  intros host v. rewrite lookup_fmap.
  destruct (m !! host) as [r|]; simpl; [| done].
  intros [= <-]. rewrite response_of_asdict. by eexists.
Qed.

Lemma load_of_dumped (path : string) (m : gmap string DnsResponse) (w : World) :
  files w !! path = Some (YMap (_asdict <$> m)) →
  _load_response_cache path w = Returned m w.
Proof.
  intros Hfile.
  unfold _load_response_cache, try_except, bind, open_read. rewrite Hfile.
  destruct (decide (map_Forall _ _)) as [_ | Hbad].
  - unfold ret. by rewrite omap_response_of_asdict.
  - destruct Hbad. apply asdict_entries_well_formed.
Qed.

(** C7: saving a mapping and loading it back from the same path returns the
    mapping; this holds for every mapping, the non-empty ones included. *)
Theorem save_load_roundtrip (path : string) (m : gmap string DnsResponse)
    (w : World) :
  ∃ w', _save_response_cache path m w = Returned tt w' ∧
        _load_response_cache path w' = Returned m w'.
Proof.
  eexists. split; [reflexivity |].
  apply load_of_dumped. simpl. apply lookup_insert_eq.
Qed.

(** C8: when the cache file is missing, [_load_response_cache] returns the
    empty mapping after logging that the file was not found (one record,
    through [logging.error]), and [main] goes on into its loop with an empty
    store. *)
Theorem load_missing_cache (path : string) (w : World) :
  files w !! path = None →
  _load_response_cache path w
    = Returned ∅ (log_record ERROR (CacheFileNotFound path) w) ∧
  ∃ w', main_startup path w = Returned tt w' ∧
        responses w' = ∅ ∧
        ∀ E config n,
          main E config path n w
          = main_loop E config path stale_check_predicate n w'.
Proof.
  intros Hmissing.
  assert (Hload : _load_response_cache path w
            = Returned ∅ (log_record ERROR (CacheFileNotFound path) w)).
  { unfold _load_response_cache, try_except, bind, open_read.
    rewrite Hmissing. reflexivity. }
  split; [exact Hload |].
  eexists. split; [| split].
  - unfold main_startup, bind. rewrite Hload. reflexivity.
  - reflexivity.
  - intros E config n. unfold main, main_startup, bind. rewrite Hload.
    reflexivity.
Qed.

Lemma load_missing_cache_witness :
  _load_response_cache "response_cache.yml" fresh_world
    = Returned ∅ (log_record ERROR (CacheFileNotFound "response_cache.yml")
                    fresh_world) ∧
  ∃ w', main_startup "response_cache.yml" fresh_world = Returned tt w' ∧
        responses w' = ∅ ∧
        ∀ E config n,
          main E config "response_cache.yml" n fresh_world
          = main_loop E config "response_cache.yml" stale_check_predicate n w'.
Proof.
  apply (load_missing_cache "response_cache.yml" fresh_world).
  reflexivity.
Defined.

(** ** The loop body in closed form *)

Lemma loop_body_eq (E : Env) (config : list (string * HostConfiguration))
    (path host : string) (w : World) :
  loop_body E config path host w =
  let w1 := queried E host w in
  match dns_resolver_query E host (clock w) with
  | None => Raised DNSException w1
  | Some answers =>
      let response := response_of_answer E host w answers in
      let w2 := log_record DEBUG (ReceivedResponse response) w1 in
      if is_notable (responses w !! host) response then
        let w3 := log_record INFO
                    (IpAddressChanged host (ipv4 response)
                       (ipv4 <$> responses w !! host)) w2 in
        match config_get config host with
        | None => Raised KeyError w3
        | Some host_config =>
            let uri := webhook_uri host_config in
            let content := notification_content host host_config response in
            let w4 := advance (post_elapsed E uri content (clock w3))
                        (record_post uri content w3) in
            match requests_post E uri content (clock w3) with
            | ConnectionFailed => Raised RequestException w4
            | HttpStatus _ => Returned tt (stored path host response w4)
            end
        end
      else Returned tt (stored path host response w2)
  end.
Proof.
  unfold loop_body, _check_dns, bind, logging, time_time, elapse. simpl.
  destruct (dns_resolver_query E host (clock w)) as [answers|]; [| done].
  simpl. unfold response_of_answer.
  destruct (is_notable _ _); [| done].
  unfold config_getitem. simpl.
  destruct (config_get config host) as [host_config|]; [| done].
  unfold _notify_webhook. simpl.
  by destruct (requests_post _ _ _ _).
Qed.

Lemma scan_step_eq (E : Env) (config : list (string * HostConfiguration))
    (path host : string) (w : World) :
  scan_step E config path stale_check_predicate host w =
  match responses w !! host with
  | None => loop_body E config path host w
  | Some response =>
      if expiry response <? clock w then loop_body E config path host w
      else Returned tt w
  end.
Proof.
  unfold scan_step, bind. rewrite stale_check_predicate_eq.
  destruct (responses w !! host) as [response|]; [| done].
  by destruct (expiry response <? clock w).
Qed.

Lemma for_stale_hosts_cons (E : Env) (config : list (string * HostConfiguration))
    (path : string) (predicate : string -> M bool) (host : string)
    (rest : list string) (w : World) :
  for_stale_hosts E config path predicate (host :: rest) w =
  match scan_step E config path predicate host w with
  | Returned _ w' => for_stale_hosts E config path predicate rest w'
  | Raised e w' => Raised e w'
  end.
Proof.
  simpl. unfold scan_step, bind.
  destruct (predicate host w) as [stale w1 | e w1]; [| done].
  by destruct stale.
Qed.

Lemma schedule_sleep_eq (w : World) :
  schedule_sleep w =
  match next_check (responses w) with
  | None => Raised ValueError w
  | Some next =>
      let sleep_time := Z.max 30 (next - clock w) in
      Returned sleep_time (slept sleep_time w)
  end.
Proof.
  unfold schedule_sleep, bind, responses_object.
  by destruct (next_check (responses w)).
Qed.

(** ** Sleep duration *)

Lemma schedule_sleep_least (w : World) (next : Z) :
  least_expiry (responses w) next →
  schedule_sleep w
  = Returned (Z.max 30 (next - clock w)) (slept (Z.max 30 (next - clock w)) w).
Proof.
  intros Hleast. rewrite schedule_sleep_eq.
  destruct (next_check (responses w)) as [m|] eqn:Hm.
  - apply next_check_Some in Hm.
    by rewrite (least_expiry_unique _ _ _ Hm Hleast).
  - apply next_check_None in Hm. destruct Hleast as [(h & r & Hh & _) _].
    rewrite Hm in Hh. by rewrite lookup_empty in Hh.
Qed.

Lemma cycle_eq (E : Env) (config : list (string * HostConfiguration))
    (path : string) (predicate : string -> M bool) (w : World) :
  cycle E config path predicate w =
  match for_stale_hosts E config path predicate (config_keys config) w with
  | Returned _ w1 => schedule_sleep w1
  | Raised e w1 => Raised e w1
  end.
Proof. reflexivity. Qed.

(** C1: when the scan of a cycle ends with a non-empty store, the cycle
    sleeps [max 30 (next - now)] seconds, where [next] is the least expiry
    over all entries of the store and [now] the time at which the sleep is
    computed.  With expiries [now + 10] and [now + 500] the sleep is 30, and
    with [now + 100] alone it is 100. *)
Theorem sleep_duration :
  (∀ E config path predicate w w1,
      for_stale_hosts E config path predicate (config_keys config) w
        = Returned tt w1 →
      responses w1 ≠ ∅ →
      ∃ next,
        least_expiry (responses w1) next ∧
        cycle E config path predicate w
        = Returned (Z.max 30 (next - clock w1))
            (slept (Z.max 30 (next - clock w1)) w1)) ∧
  (∀ w a b ra rb,
      a ≠ b →
      responses w = <[a := ra]> {[b := rb]} →
      expiry ra = clock w + 10 →
      expiry rb = clock w + 500 →
      schedule_sleep w = Returned 30 (slept 30 w)) ∧
  (∀ w a ra,
      responses w = {[a := ra]} →
      expiry ra = clock w + 100 →
      schedule_sleep w = Returned 100 (slept 100 w)).
Proof.
  split; [| split].
  - intros E config path predicate w w1 Hscan Hne.
    destruct (next_check_nonempty _ Hne) as (next & Hnext & Hleast).
    exists next. split; [done |].
    rewrite cycle_eq, Hscan. by apply schedule_sleep_least.
  - intros w a b ra rb Hab Hd Ha Hb.
    assert (Hleast : least_expiry (responses w) (clock w + 10)).
    { rewrite Hd. split.
      - exists a, ra. split; [apply lookup_insert_eq | done].
      - intros h r. rewrite lookup_insert. case_decide.
        + intros [= <-]. lia.
        + rewrite lookup_singleton. case_decide; [| done].
          intros [= <-]. lia. }
    rewrite (schedule_sleep_least _ _ Hleast).
    by replace (Z.max 30 (clock w + 10 - clock w)) with 30 by lia.
  - intros w a ra Hd Ha.
    assert (Hleast : least_expiry (responses w) (clock w + 100)).
    { rewrite Hd. split.
      - exists a, ra. split; [apply lookup_singleton_eq | done].
      - intros h r. rewrite lookup_singleton. case_decide; [| done].
        intros [= <-]. lia. }
    rewrite (schedule_sleep_least _ _ Hleast).
    by replace (Z.max 30 (clock w + 100 - clock w)) with 100 by lia.
Qed.

Lemma sleep_duration_witness :
  let r := mkDnsResponse "1.2.3.4" 1100 800 in
  let old := mkDnsResponse "5.6.7.8" 1010 700 in
  let far := mkDnsResponse "5.6.7.8" 1500 700 in
  let w := world_at 1000 {["example.com" := r]} in
  (∃ next,
     least_expiry (responses w) next ∧
     cycle env_ok sample_config "response_cache.yml" stale_check_predicate w
     = Returned (Z.max 30 (next - clock w))
         (slept (Z.max 30 (next - clock w)) w)) ∧
  schedule_sleep (world_at 1000 (<["a.example" := old]> {["b.example" := far]}))
  = Returned 30
      (slept 30 (world_at 1000 (<["a.example" := old]> {["b.example" := far]}))) ∧
  schedule_sleep w = Returned 100 (slept 100 w).
Proof.
  intros r old far w. split; [| split].
  - apply (proj1 sleep_duration env_ok sample_config "response_cache.yml"
             stale_check_predicate w w).
    + vm_compute. reflexivity.
    + apply map_non_empty_singleton.
  - apply (proj1 (proj2 sleep_duration)
             (world_at 1000 (<["a.example" := old]> {["b.example" := far]}))
             "a.example" "b.example" old far).
    + discriminate.
    + reflexivity.
    + reflexivity.
    + reflexivity.
  - apply (proj2 (proj2 sleep_duration) w "example.com" r).
    + reflexivity.
    + reflexivity.
Defined.

Lemma schedule_sleep_empty (w : World) :
  responses w = ∅ → schedule_sleep w = Raised ValueError w.
Proof.
  intros Hempty. rewrite schedule_sleep_eq.
  by rewrite (proj2 (next_check_None _) Hempty).
Qed.

(** C2: with no host configured and no cache file, the store is empty when
    the first cycle reaches line 105, and [min] raises [ValueError] there:
    no sleep is computed and the exception leaves [main]. *)
Theorem empty_store_sleep_raises :
  ∃ w', main env_ok [] "response_cache.yml" 1 fresh_world
          = Raised ValueError w' ∧
        responses w' = ∅ ∧
        clock w' = clock fresh_world.
Proof. eexists. split; [vm_compute; reflexivity | done]. Qed.

(** ** What a scan preserves *)

Section Preserved.
Variable E : Env.
Variable config : list (string * HostConfiguration).
Variable path : string.
(** A relation between the state before and the state after. *)
Variable R : World -> World -> Prop.
(** The keys for which a scan step is known to respect it. *)
Variable P : string -> Prop.

Hypothesis R_refl : ∀ w, R w w.
Hypothesis R_trans : ∀ w1 w2 w3, R w1 w2 → R w2 w3 → R w1 w3.
Hypothesis R_step : ∀ host w,
  P host →
  R w (final_world (scan_step E config path stale_check_predicate host w)).
Hypothesis R_sleep : ∀ w, R w (final_world (schedule_sleep w)).

Lemma for_stale_hosts_preserves (keys : list string) (w : World) :
  Forall P keys →
  R w (final_world
         (for_stale_hosts E config path stale_check_predicate keys w)).
Proof.
  intros HP. revert w. induction HP as [|host rest Hhost _ IH]; intros w.
  - apply R_refl.
  - rewrite for_stale_hosts_cons.
    pose proof (R_step host w Hhost) as Hstep.
    destruct (scan_step E config path stale_check_predicate host w)
      as [[] w' | e w']; simpl in *.
    + eapply R_trans; [exact Hstep | apply IH].
    + exact Hstep.
Qed.

Lemma cycle_preserves (w : World) :
  Forall P (config_keys config) →
  R w (final_world (cycle E config path stale_check_predicate w)).
Proof.
  intros HP. rewrite cycle_eq.
  pose proof (for_stale_hosts_preserves _ w HP) as Hscan.
  destruct (for_stale_hosts _ _ _ _ _ w) as [[] w1 | e w1]; simpl in *.
  - eapply R_trans; [exact Hscan | apply R_sleep].
  - exact Hscan.
Qed.

Lemma main_loop_preserves (n : nat) (w : World) :
  Forall P (config_keys config) →
  R w (final_world (main_loop E config path stale_check_predicate n w)).
Proof.
  intros HP. revert w. induction n as [|n IH]; intros w; simpl.
  - apply R_refl.
  - unfold bind. pose proof (cycle_preserves w HP) as Hcycle.
    destruct (cycle E config path stale_check_predicate w)
      as [s w1 | e w1]; simpl in *.
    + eapply R_trans; [exact Hcycle | apply IH].
    + exact Hcycle.
Qed.

Lemma rest_of_run_preserves (rest : list string) (n : nat) (w : World) :
  Forall P rest →
  Forall P (config_keys config) →
  R w (final_world
         (rest_of_run E config path stale_check_predicate rest n w)).
Proof.
  intros Hrest HP. unfold rest_of_run, bind.
  pose proof (for_stale_hosts_preserves rest w Hrest) as Hscan.
  destruct (for_stale_hosts _ _ _ _ rest w) as [[] w1 | e w1]; simpl in *;
    [| exact Hscan].
  pose proof (R_sleep w1) as Hsleep.
  destruct (schedule_sleep w1) as [s w2 | e w2]; simpl in *.
  - eapply R_trans; [exact Hscan |].
    eapply R_trans; [exact Hsleep | by apply main_loop_preserves].
  - eapply R_trans; [exact Hscan | exact Hsleep].
Qed.
End Preserved.

(** The store after a scan step: unchanged, or updated at the scanned key. *)
Lemma scan_step_responses (E : Env) (config : list (string * HostConfiguration))
    (path host : string) (w : World) :
  let w' := final_world (scan_step E config path stale_check_predicate host w) in
  responses w' = responses w ∨
  ∃ response, responses w' = <[host := response]> (responses w).
Proof.
  assert (Hbody :
    let w' := final_world (loop_body E config path host w) in
    responses w' = responses w ∨
    ∃ response, responses w' = <[host := response]> (responses w)).
  { rewrite loop_body_eq. simpl.
    destruct (dns_resolver_query E host (clock w)) as [answers|]; [| by left].
    destruct (is_notable _ _); [| right; by eexists].
    destruct (config_get config host) as [host_config|]; [| by left].
    destruct (requests_post _ _ _ _); [by left | right; by eexists]. }
  rewrite scan_step_eq.
  destruct (responses w !! host) as [response|]; [| exact Hbody].
  destruct (expiry response <? clock w); [exact Hbody | by left].
Qed.

Lemma schedule_sleep_responses (w : World) :
  responses (final_world (schedule_sleep w)) = responses w.
Proof.
  rewrite schedule_sleep_eq. by destruct (next_check (responses w)).
Qed.

(** ** Entries are never deleted *)

Lemma scan_step_dom (E : Env) (config : list (string * HostConfiguration))
    (path host : string) (w : World) :
  dom (responses w) ⊆
  dom (responses
         (final_world (scan_step E config path stale_check_predicate host w))).
Proof.
  destruct (scan_step_responses E config path host w) as [-> | [r ->]].
  - done.
  - rewrite dom_insert_L. set_solver.
Qed.

Lemma scan_step_other (E : Env) (config : list (string * HostConfiguration))
    (path host other : string) (w : World) :
  host ≠ other →
  responses
    (final_world (scan_step E config path stale_check_predicate host w))
    !! other
  = responses w !! other.
Proof.
  intros Hne.
  destruct (scan_step_responses E config path host w) as [-> | [r ->]].
  - done.
  - by apply lookup_insert_ne.
Qed.

Lemma cycle_dom (E : Env) (config : list (string * HostConfiguration))
    (path : string) (w : World) :
  dom (responses w) ⊆
  dom (responses (final_world (cycle E config path stale_check_predicate w))).
Proof.
  apply (cycle_preserves E config path
           (fun w w' => dom (responses w) ⊆ dom (responses w'))
           (fun _ => True)).
  - done.
  - intros w1 w2 w3 H12 H23. set_solver.
  - intros host w1 _. apply scan_step_dom.
  - intros w1. by rewrite schedule_sleep_responses.
  - by apply Forall_true.
Qed.

Lemma cycle_other (E : Env) (config : list (string * HostConfiguration))
    (path other : string) (w : World) :
  other ∉ config_keys config →
  responses (final_world (cycle E config path stale_check_predicate w)) !! other
  = responses w !! other.
Proof.
  intros Hnotin.
  apply (cycle_preserves E config path
           (fun w w' => responses w' !! other = responses w !! other)
           (fun host => host ≠ other)).
  - done.
  - intros w1 w2 w3 H12 H23. congruence.
  - intros host w1 Hne. by apply scan_step_other.
  - intros w1. by rewrite schedule_sleep_responses.
  - apply Forall_forall. intros host Hin ->. done.
Qed.

Lemma main_loop_dom (E : Env) (config : list (string * HostConfiguration))
    (path : string) (n : nat) (w : World) :
  dom (responses w) ⊆
  dom (responses
         (final_world (main_loop E config path stale_check_predicate n w))).
Proof.
  apply (main_loop_preserves E config path
           (fun w w' => dom (responses w) ⊆ dom (responses w'))
           (fun _ => True)).
  - done.
  - intros w1 w2 w3 H12 H23. set_solver.
  - intros host w1 _. apply scan_step_dom.
  - intros w1. by rewrite schedule_sleep_responses.
  - by apply Forall_true.
Qed.

(** Every entry of the store at the end of a cycle bounds the sleep. *)
Lemma cycle_sleep_bound (E : Env) (config : list (string * HostConfiguration))
    (path : string) (predicate : string -> M bool) (w w' : World) (s : Z)
    (host : string) (r : DnsResponse) :
  cycle E config path predicate w = Returned s w' →
  responses w' !! host = Some r →
  30 <= s ∧ s <= Z.max 30 (expiry r - (clock w' - s)).
Proof.
  rewrite cycle_eq.
  destruct (for_stale_hosts _ _ _ _ _ w) as [[] w1 | e w1]; [| done].
  rewrite schedule_sleep_eq.
  destruct (next_check (responses w1)) as [next|] eqn:Hnext; [| done].
  simpl. intros [= <- <-]. simpl. intros Hr.
  apply next_check_Some in Hnext as [_ Hle]. specialize (Hle _ _ Hr). lia.
Qed.

(** C9: a cycle deletes no entry: the hostnames in the store after a cycle,
    completed or not, include those before it, and so after any number of
    cycles; an entry whose host is not a key of the configuration is left as
    it is, and when the cycle completes its expiry still bounds the sleep
    from above through the minimum of line 105. *)
Theorem store_never_shrinks (E : Env)
    (config : list (string * HostConfiguration)) (path : string) (w : World) :
  let after := final_world (cycle E config path stale_check_predicate w) in
  dom (responses w) ⊆ dom (responses after) ∧
  (∀ n, dom (responses w) ⊆
        dom (responses
               (final_world
                  (main_loop E config path stale_check_predicate n w)))) ∧
  (∀ host r,
      host ∉ config_keys config →
      responses w !! host = Some r →
      responses after !! host = Some r ∧
      ∀ s w', cycle E config path stale_check_predicate w = Returned s w' →
              30 <= s ∧ s <= Z.max 30 (expiry r - (clock w' - s))).
Proof.
  intros after. split; [apply cycle_dom | split].
  - intros n. apply main_loop_dom.
  - intros host r Hnotin Hr.
    assert (Hafter : responses after !! host = Some r).
    { unfold after. by rewrite cycle_other. }
    split; [done |].
    intros s w' Hcycle. apply (cycle_sleep_bound _ _ _ _ _ _ _ host r Hcycle).
    unfold after in Hafter. by rewrite Hcycle in Hafter.
Qed.

Lemma store_never_shrinks_witness :
  let orphan := mkDnsResponse "9.9.9.9" 1040 700 in
  let w := world_at 1000 {["removed.example" := orphan]} in
  let o := cycle env_ok sample_config "response_cache.yml"
             stale_check_predicate w in
  responses (final_world o) !! "removed.example" = Some orphan ∧
  ∃ w', o = Returned 37 w' ∧
        30 <= 37 ∧ 37 <= Z.max 30 (expiry orphan - (clock w' - 37)).
Proof.
  intros orphan w o.
  destruct (proj2 (proj2 (store_never_shrinks env_ok sample_config
                            "response_cache.yml" w))
              "removed.example" orphan) as [Hkept Hbound].
  - apply (bool_decide_unpack _). vm_compute. exact I.
  - reflexivity.
  - split; [exact Hkept |].
    eexists. split; [vm_compute; reflexivity |].
    eapply Hbound. vm_compute. reflexivity.
Defined.

(** ** Failures of the webhook and of the resolver *)

(** X13: the webhook is called exactly when the change is notable: the loop body
    of a host that resolves posts nothing when [is_notable] is false, and
    one message to the configured endpoint when it is true. *)
Lemma notification_iff_notable (E : Env)
    (config : list (string * HostConfiguration)) (path host : string)
    (host_config : HostConfiguration) (answers : Answer) (w : World) :
  dns_resolver_query E host (clock w) = Some answers →
  config_get config host = Some host_config →
  let response := response_of_answer E host w answers in
  posts (final_world (loop_body E config path host w)) =
  if is_notable (responses w !! host) response
  then posts w ++ [(webhook_uri host_config,
                    notification_content host host_config response)]
  else posts w.
Proof.
  intros Hdns Hconfig response. rewrite loop_body_eq, Hdns. simpl.
  fold response. destruct (is_notable _ _); [| done].
  rewrite Hconfig. by destruct (requests_post _ _ _ _).
Qed.

Lemma cycle_raised (E : Env) (config : list (string * HostConfiguration))
    (path : string) (predicate : string -> M bool) (w w' : World) (e : exn) :
  for_stale_hosts E config path predicate (config_keys config) w = Raised e w' →
  cycle E config path predicate w = Raised e w'.
Proof. intros H. by rewrite cycle_eq, H. Qed.

(** C5, as the specification states it, fails for a transport failure: the host
    resolves, [requests.post] raises, and the cycle ends there with the
    exception, the store entry of the host not updated and no cache file
    written. *)
Lemma notify_transport_failure_counterexample :
  is_Some (dns_resolver_query env_unreachable "example.com" (clock fresh_world)) ∧
  ∃ w', cycle env_unreachable sample_config "response_cache.yml"
          stale_check_predicate fresh_world
        = Raised RequestException w' ∧
        responses w' !! "example.com" = None ∧
        files w' !! "response_cache.yml" = None.
Proof.
  split; [by eexists |].
  eexists. split; [vm_compute; reflexivity | done].
Qed.

(** C5 (amended): for a stale host whose resolution succeeds and whose
    change is notable, a response of the webhook with any status code, 2xx
    or not, lets the cycle go on: the store entry of the host is updated,
    the store is saved and the scan continues with the next key.  When
    [requests.post] raises (transport failure), the exception ends the
    cycle: the entry is not updated and the cache file is not written. *)
Theorem notify_outcome_and_persistence (E : Env)
    (config : list (string * HostConfiguration)) (path host : string)
    (host_config : HostConfiguration) (answers : Answer) (w : World) :
  stale_check_predicate host w = Returned true w →
  dns_resolver_query E host (clock w) = Some answers →
  config_get config host = Some host_config →
  let response := response_of_answer E host w answers in
  let uri := webhook_uri host_config in
  let content := notification_content host host_config response in
  let t := clock w + dns_elapsed E host (clock w) in
  is_notable (responses w !! host) response = true →
  (∀ code,
      requests_post E uri content t = HttpStatus code →
      ∃ w', scan_step E config path stale_check_predicate host w
              = Returned tt w' ∧
            responses w' = <[host := response]> (responses w) ∧
            files w' !! path = Some (YMap (_asdict <$> responses w')) ∧
            posts w' = posts w ++ [(uri, content)] ∧
            ∀ rest,
              for_stale_hosts E config path stale_check_predicate
                (host :: rest) w
              = for_stale_hosts E config path stale_check_predicate rest w') ∧
  (requests_post E uri content t = ConnectionFailed →
   ∃ w', responses w' = responses w ∧
         files w' = files w ∧
         ∀ rest,
           for_stale_hosts E config path stale_check_predicate (host :: rest) w
             = Raised RequestException w' ∧
           (config_keys config = host :: rest →
            cycle E config path stale_check_predicate w
              = Raised RequestException w')).
Proof.
  intros Hstale Hdns Hconfig response uri content t Hnotable.
  assert (Hstep : scan_step E config path stale_check_predicate host w
                  = loop_body E config path host w).
  { unfold scan_step, bind. by rewrite Hstale. }
  rewrite loop_body_eq, Hdns in Hstep. simpl in Hstep.
  fold response in Hstep. rewrite Hnotable, Hconfig in Hstep.
  fold uri content t in Hstep.
  split.
  - intros code Hpost. rewrite Hpost in Hstep.
    eexists. split; [exact Hstep |].
    repeat split.
    + simpl. apply lookup_insert_eq.
    + intros rest. by rewrite for_stale_hosts_cons, Hstep.
  - intros Hpost. rewrite Hpost in Hstep.
    match type of Hstep with _ = Raised _ ?w' => exists w' end.
    split; [| split]; [| | intros rest; split].
    + reflexivity.
    + reflexivity.
    + by rewrite for_stale_hosts_cons, Hstep.
    + intros Hkeys. apply cycle_raised.
      by rewrite Hkeys, for_stale_hosts_cons, Hstep.
Qed.

Lemma notify_outcome_and_persistence_witness :
  let path := "response_cache.yml" in
  let host := "example.com" in
  let host_config := mkHostConfiguration "Example" "https://hooks.example/1" in
  let response := mkDnsResponse "1.2.3.4" 1301 1001 in
  let content := "IP address for **Example** (example.com) is now **1.2.3.4**" in
  (∃ w', scan_step env_http_500 sample_config path stale_check_predicate host
           fresh_world = Returned tt w' ∧
         responses w' = <[host := response]> (responses fresh_world) ∧
         files w' !! path = Some (YMap (_asdict <$> responses w')) ∧
         posts w' = posts fresh_world ++ [(webhook_uri host_config, content)] ∧
         ∀ rest,
           for_stale_hosts env_http_500 sample_config path
             stale_check_predicate (host :: rest) fresh_world
           = for_stale_hosts env_http_500 sample_config path
               stale_check_predicate rest w') ∧
  (∃ w', responses w' = responses fresh_world ∧
         files w' = files fresh_world ∧
         ∀ rest,
           for_stale_hosts env_unreachable sample_config path
             stale_check_predicate (host :: rest) fresh_world
             = Raised RequestException w' ∧
           (config_keys sample_config = host :: rest →
            cycle env_unreachable sample_config path stale_check_predicate
              fresh_world
              = Raised RequestException w')).
Proof.
  intros path host host_config response content. split.
  - apply (proj1 (notify_outcome_and_persistence env_http_500 sample_config
                    path host host_config (mkAnswer "1.2.3.4" 1301) fresh_world
                    eq_refl eq_refl eq_refl eq_refl) 500).
    reflexivity.
  - apply (proj2 (notify_outcome_and_persistence env_unreachable sample_config
                    path host host_config (mkAnswer "1.2.3.4" 1301) fresh_world
                    eq_refl eq_refl eq_refl eq_refl)).
    reflexivity.
Defined.

(** C6, as the specification states it, fails: with two stale hosts of
    which the first does not resolve and the second would, the exception of the first
    ends the cycle; the second host is not queried, its entry is not
    stored and nothing is written to the cache file. *)
Lemma resolution_failure_counterexample :
  dns_resolver_query env_ok "down.example" (clock fresh_world) = None ∧
  (∀ t, is_Some (dns_resolver_query env_ok "example.com" t)) ∧
  ∃ w', cycle env_ok two_hosts_config "response_cache.yml"
          stale_check_predicate fresh_world
        = Raised DNSException w' ∧
        responses w' !! "example.com" = None ∧
        files w' !! "response_cache.yml" = None ∧
        dns_queries "example.com" (log w') = 0%nat.
Proof.
  split; [done |]. split; [intros t; by eexists |].
  eexists. split; [vm_compute; reflexivity | done].
Qed.

(** C6 (amended): when the resolution of a stale host fails, the exception
    ends the cycle at that host: the keys after it are not scanned, and the
    store, the cache file and the notifications sent are those of the
    moment the query was made, the entry of the failing host unchanged. *)
Theorem resolution_failure_aborts (E : Env)
    (config : list (string * HostConfiguration)) (path host : string)
    (rest : list string) (w : World) :
  stale_check_predicate host w = Returned true w →
  dns_resolver_query E host (clock w) = None →
  let w' := queried E host w in
  for_stale_hosts E config path stale_check_predicate (host :: rest) w
    = Raised DNSException w' ∧
  (config_keys config = host :: rest →
   cycle E config path stale_check_predicate w = Raised DNSException w') ∧
  responses w' = responses w ∧
  files w' = files w ∧
  posts w' = posts w ∧
  log w' = log w ++ [(DEBUG, RetrievingARecord host)].
Proof.
  intros Hstale Hdns w'.
  assert (Hscan : for_stale_hosts E config path stale_check_predicate
                    (host :: rest) w = Raised DNSException w').
  { rewrite for_stale_hosts_cons. unfold scan_step, bind. rewrite Hstale.
    by rewrite loop_body_eq, Hdns. }
  split; [exact Hscan |]. split; [| done].
  intros Hkeys. apply cycle_raised. by rewrite Hkeys.
Qed.

Lemma resolution_failure_aborts_witness :
  let w' := queried env_ok "down.example" fresh_world in
  for_stale_hosts env_ok two_hosts_config "response_cache.yml"
    stale_check_predicate ["down.example"; "example.com"] fresh_world
    = Raised DNSException w' ∧
  (config_keys two_hosts_config = ["down.example"; "example.com"] →
   cycle env_ok two_hosts_config "response_cache.yml" stale_check_predicate
     fresh_world = Raised DNSException w') ∧
  responses w' = responses fresh_world ∧
  files w' = files fresh_world ∧
  posts w' = posts fresh_world ∧
  log w' = log fresh_world ++ [(DEBUG, RetrievingARecord "down.example")].
Proof.
  apply (resolution_failure_aborts env_ok two_hosts_config "response_cache.yml"
           "down.example" ["example.com"] fresh_world).
  - reflexivity.
  - reflexivity.
Defined.

(** ** The scan reads the store as it is *)

Lemma dns_queries_snoc (host : string) (l : list (level * message))
    (lv : level) (m : message) :
  m ≠ RetrievingARecord host →
  dns_queries host (l ++ [(lv, m)]) = dns_queries host l.
Proof.
  intros Hne. unfold dns_queries. rewrite filter_app, length_app.
  rewrite filter_cons_False by done. simpl. lia.
Qed.

Lemma loop_body_queries (E : Env) (config : list (string * HostConfiguration))
    (path host other : string) (w : World) :
  host ≠ other →
  dns_queries other (log (final_world (loop_body E config path host w)))
  = dns_queries other (log w).
Proof.
  intros Hne. rewrite loop_body_eq. simpl.
  assert (H1 : dns_queries other (log w ++ [(DEBUG, RetrievingARecord host)])
               = dns_queries other (log w)).
  { apply dns_queries_snoc. congruence. }
  destruct (dns_resolver_query E host (clock w)) as [answers|]; [| exact H1].
  destruct (is_notable _ _); simpl.
  - destruct (config_get config host) as [host_config|]; simpl.
    + destruct (requests_post _ _ _ _); simpl;
        by rewrite !dns_queries_snoc by congruence.
    + by rewrite !dns_queries_snoc by congruence.
  - by rewrite !dns_queries_snoc by congruence.
Qed.

Lemma loop_body_clock (E : Env) (config : list (string * HostConfiguration))
    (path host : string) (w : World) :
  causal E →
  clock w <= clock (final_world (loop_body E config path host w)).
Proof.
  intros [Hdns Hpost]. rewrite loop_body_eq. simpl.
  pose proof (Hdns host (clock w)) as Hd.
  destruct (dns_resolver_query E host (clock w)) as [answers|]; simpl; [| lia].
  destruct (is_notable _ _); simpl; [| lia].
  destruct (config_get config host) as [host_config|]; simpl; [| lia].
  match goal with
  | |- context [requests_post E ?u ?c ?t] => pose proof (Hpost u c t) as Hp
  end.
  destruct (requests_post _ _ _ _); simpl; lia.
Qed.

Lemma scan_step_fresh (E : Env) (config : list (string * HostConfiguration))
    (path host : string) (r : DnsResponse) (w : World) :
  responses w !! host = Some r →
  clock w <= expiry r →
  scan_step E config path stale_check_predicate host w = Returned tt w.
Proof.
  intros Hr Hle. rewrite scan_step_eq, Hr.
  by rewrite (proj2 (Z.ltb_ge _ _) Hle).
Qed.

Lemma scan_step_clock (E : Env) (config : list (string * HostConfiguration))
    (path host : string) (w : World) :
  causal E →
  clock w <=
  clock (final_world (scan_step E config path stale_check_predicate host w)).
Proof.
  intros Hc. rewrite scan_step_eq.
  destruct (responses w !! host) as [r|]; [| by apply loop_body_clock].
  destruct (expiry r <? clock w); [by apply loop_body_clock | simpl; lia].
Qed.

Lemma scan_step_queries (E : Env) (config : list (string * HostConfiguration))
    (path host other : string) (w : World) :
  host ≠ other →
  dns_queries other
    (log (final_world (scan_step E config path stale_check_predicate host w)))
  = dns_queries other (log w).
Proof.
  intros Hne. rewrite scan_step_eq.
  destruct (responses w !! host) as [r|]; [| by apply loop_body_queries].
  destruct (expiry r <? clock w); [by apply loop_body_queries | done].
Qed.

Lemma kept_fresh_refl (host : string) (r : DnsResponse) (w : World) :
  kept_fresh host r w w.
Proof. split; [lia | done]. Qed.

Lemma kept_fresh_trans (host : string) (r : DnsResponse) (w1 w2 w3 : World) :
  kept_fresh host r w1 w2 → kept_fresh host r w2 w3 → kept_fresh host r w1 w3.
Proof.
  intros [Hc12 H12] [Hc23 H23]. split; [lia |].
  intros Hr Hle. destruct H12 as [Hr2 Hq2]; [done | lia |].
  destruct H23 as [Hr3 Hq3]; [done | done |]. split; [done | congruence].
Qed.

Lemma kept_fresh_step (E : Env) (config : list (string * HostConfiguration))
    (path host : string) (r : DnsResponse) (key : string) (w : World) :
  causal E →
  kept_fresh host r w
    (final_world (scan_step E config path stale_check_predicate key w)).
Proof.
  intros Hc. split; [by apply scan_step_clock |].
  intros Hr Hle. destruct (decide (key = host)) as [-> | Hne].
  - pose proof (scan_step_clock E config path host w Hc) as Hmono.
    rewrite (scan_step_fresh E config path host r w Hr) in * by lia. done.
  - split.
    + by rewrite scan_step_other.
    + by apply scan_step_queries.
Qed.

Lemma kept_fresh_sleep (host : string) (r : DnsResponse) (w : World) :
  kept_fresh host r w (final_world (schedule_sleep w)).
Proof.
  rewrite schedule_sleep_eq.
  destruct (next_check (responses w)) as [next|]; simpl.
  - unfold kept_fresh. simpl. split; [lia |].
    intros Hr _. split; [done |]. by apply dns_queries_snoc.
  - apply kept_fresh_refl.
Qed.

Lemma loop_body_returned (E : Env) (config : list (string * HostConfiguration))
    (path host : string) (w w1 : World) :
  loop_body E config path host w = Returned tt w1 →
  ∃ answers,
    dns_resolver_query E host (clock w) = Some answers ∧
    responses w1
    = <[host := response_of_answer E host w answers]> (responses w) ∧
    files w1 !! path = Some (YMap (_asdict <$> responses w1)).
Proof.
  rewrite loop_body_eq. simpl.
  destruct (dns_resolver_query E host (clock w)) as [answers|]; [| done].
  intros Hret. exists answers. split; [done |].
  destruct (is_notable _ _).
  - destruct (config_get config host) as [host_config|]; [| done].
    destruct (requests_post _ _ _ _); [done |].
    injection Hret as <-. split; [done | apply lookup_insert_eq].
  - injection Hret as <-. split; [done | apply lookup_insert_eq].
Qed.

(** C10: the predicate built once at line 87 reads the store as it is when
    a key is scanned, not as it was when the predicate was built: its answer
    for a host is that of [_is_response_stale] on the store and the clock of
    the call, true when the store has no entry for the host or one whose
    expiry has passed, false otherwise.  After the loop body has resolved a
    host and stored its response [r], whatever the store held for the host
    before, the predicate reports the host as not stale in every state that
    holds [r] and whose clock has not passed the expiry of [r], and as stale
    once the clock has passed it, the scan then running the loop body for
    the host again; and through the rest of that cycle and any number of
    further cycles that end before the expiry, the host is not queried again
    and its entry stays [r]. *)
Theorem scan_reads_live_store (E : Env)
    (config : list (string * HostConfiguration)) (path host : string)
    (rest : list string) (n : nat) (w w1 : World) :
  causal E →
  loop_body E config path host w = Returned tt w1 →
  ∃ r,
    responses w1 !! host = Some r ∧
    (∀ w2, responses w2 !! host = Some r →
           clock w2 <= expiry r →
           stale_check_predicate host w2 = Returned false w2) ∧
    let after :=
      final_world
        (rest_of_run E config path stale_check_predicate rest n w1) in
    (clock after <= expiry r →
     responses after !! host = Some r ∧
     dns_queries host (log after) = dns_queries host (log w1)) ∧
    (∀ w2, responses w2 !! host = None →
           stale_check_predicate host w2 = Returned true w2 ∧
           scan_step E config path stale_check_predicate host w2
           = loop_body E config path host w2) ∧
    (∀ w2, responses w2 !! host = Some r →
           expiry r < clock w2 →
           stale_check_predicate host w2 = Returned true w2 ∧
           scan_step E config path stale_check_predicate host w2
           = loop_body E config path host w2) ∧
    (∀ w2 r2, responses w2 !! host = Some r2 →
              stale_check_predicate host w2
              = Returned (expiry r2 <? clock w2) w2) ∧
    (∀ w2 d, stale_check_predicate host (set_responses d w2)
             = _is_response_stale d host (set_responses d w2)).
Proof.
  intros Hc Hbody.
  destruct (loop_body_returned _ _ _ _ _ _ Hbody) as (answers & _ & Hstore & _).
  exists (response_of_answer E host w answers).
  assert (Hr : responses w1 !! host
               = Some (response_of_answer E host w answers)).
  { rewrite Hstore. apply lookup_insert_eq. }
  split; [exact Hr |]. split.
  - intros w2 Hr2 Hle. rewrite stale_check_predicate_eq, Hr2.
    by rewrite (proj2 (Z.ltb_ge _ _) Hle).
  - intros after. split; [| split; [| split; [| split]]].
    + intros Hle.
      assert (Hkept : kept_fresh host (response_of_answer E host w answers)
                        w1 after).
      { apply (rest_of_run_preserves E config path
                 (kept_fresh host (response_of_answer E host w answers))
                 (fun _ => True)).
        - apply kept_fresh_refl.
        - apply kept_fresh_trans.
        - intros key w2 _. by apply kept_fresh_step.
        - apply kept_fresh_sleep.
        - by apply Forall_true.
        - by apply Forall_true. }
      destruct Hkept as [_ Hkept]. by apply Hkept.
    + intros w2 Hnone.
      rewrite stale_check_predicate_eq, scan_step_eq, Hnone. done.
    + intros w2 Hr2 Hlt.
      rewrite stale_check_predicate_eq, scan_step_eq, Hr2.
      by rewrite (proj2 (Z.ltb_lt _ _) Hlt).
    + intros w2 r2 Hr2. by rewrite stale_check_predicate_eq, Hr2.
    + intros w2 d. by rewrite stale_check_predicate_eq, is_response_stale_eq.
Qed.

Lemma causal_env_http (result : http_result) : causal (env_http result).
Proof. split; intros; simpl; lia. Defined.

Lemma scan_reads_live_store_witness :
  let path := "response_cache.yml" in
  let host := "example.com" in
  let w1 := first_resolution in
  ∃ r,
    loop_body env_ok sample_config path host orphan_world = Returned tt w1 ∧
    responses orphan_world !! host = None ∧
    stale_check_predicate host orphan_world = Returned true orphan_world ∧
    responses w1 !! host = Some r ∧
    stale_check_predicate host w1 = Returned false w1 ∧
    stale_check_predicate host (advance 1000 w1)
      = Returned true (advance 1000 w1) ∧
    (∀ w2, responses w2 !! host = Some r →
           clock w2 <= expiry r →
           stale_check_predicate host w2 = Returned false w2) ∧
    let after :=
      final_world
        (rest_of_run env_ok sample_config path stale_check_predicate [] 3 w1) in
    clock after <= expiry r ∧
    responses after !! host = Some r ∧
    dns_queries host (log after) = dns_queries host (log w1).
Proof.
  intros path host w1.
  destruct (scan_reads_live_store env_ok sample_config path host [] 3
              orphan_world w1 (causal_env_http (HttpStatus 204)) eq_refl)
    as (r & Hr & Hfresh & Hrest & Habsent & Hexpired & _ & _).
  assert (Hexp : expiry r = 1301).
  { assert (Some (expiry r) = Some 1301) as [= ->]; [| done].
    change (Some (expiry r)) with (expiry <$> Some r). by rewrite <- Hr. }
  exists r. split; [reflexivity |]. split; [reflexivity |].
  split; [apply (Habsent orphan_world); reflexivity |].
  split; [exact Hr |].
  split; [apply (Hfresh w1 Hr); rewrite Hexp; vm_compute; discriminate |].
  split; [apply (Hexpired (advance 1000 w1) Hr); rewrite Hexp;
          vm_compute; reflexivity |].
  split; [exact Hfresh |].
  assert (Hle : clock (final_world
                   (rest_of_run env_ok sample_config path
                      stale_check_predicate [] 3 w1)) <= expiry r).
  { rewrite Hexp. vm_compute. discriminate. }
  split; [exact Hle | exact (Hrest Hle)].
Defined.

(** A run of [main] from a missing cache file: the host is queried in the
    first cycle, not in the second (its expiry has not passed), and again
    in the third.  A predicate bound to a copy of the store taken at
    startup would query it in every cycle. *)
Example main_queries_until_expiry :
  let run n :=
    final_world (main env_ok sample_config "response_cache.yml" n fresh_world) in
  dns_queries "example.com" (log (run 1%nat)) = 1%nat ∧
  dns_queries "example.com" (log (run 2%nat)) = 1%nat ∧
  dns_queries "example.com" (log (run 3%nat)) = 2%nat.
Proof. vm_compute. done. Qed.

Example snapshot_predicate_queries_again :
  let snapshot := responses fresh_world in
  let run n :=
    final_world
      (main_loop env_ok sample_config "response_cache.yml"
         (_is_response_stale snapshot) n fresh_world) in
  dns_queries "example.com" (log (run 2%nat)) = 2%nat.
Proof. vm_compute. done. Qed.


(** * Further properties of the program *)

(** ** Loading the configuration *)

Lemma config_get_is_Some (config : list (string * HostConfiguration))
    (host : string) :
  host ∈ config_keys config ↔ is_Some (config_get config host).
Proof.
  unfold config_keys. induction config as [|[k v] l IH]; simpl.
  - split; [by intros ?%elem_of_nil | by intros [? ?]].
  - rewrite elem_of_cons. destruct (decide (k = host)) as [-> | Hne].
    + split; [by eexists | by left].
    + rewrite <- IH. split; [intros [-> | ?]; done | by right].
Qed.

(** X16: the configuration loader recovers from nothing.  A missing file
    raises [FileNotFoundError] and an empty document raises
    [AttributeError], where the cache loader returns the empty mapping for
    the same file; an entry without a name or a webhook URI raises as well.
    In each case the state is left as it was. *)
Theorem configuration_errors_are_fatal (path : string) (w : World) :
  (files w !! path = None →
   _load_configuration path w = Raised FileNotFoundError w ∧
   reload path w = Some ∅) ∧
  (files w !! path = Some YNull →
   _load_configuration path w = Raised AttributeError w ∧
   reload path w = Some ∅) ∧
  (∀ items host entry,
      files w !! path = Some (YMap items) →
      items !! host = Some entry →
      entry !! "name" = None ∨ entry !! "webhook_uri" = None →
      _load_configuration path w = Raised MalformedEntry w).
Proof.
  unfold reload, _load_configuration, _load_response_cache, try_except, bind,
    open_read.
  split; [| split].
  - by intros ->.
  - by intros ->.
  - intros items host entry -> Hentry Hmissing.
    destruct (decide (map_Forall _ items)) as [Hok | _]; [| done].
    destruct (Hok host entry Hentry) as [c Hc].
    unfold configuration_of_entry in Hc.
    destruct Hmissing as [Hm | Hm]; rewrite Hm in Hc; [done |].
    by destruct (entry !! "name") as [[]|].
Qed.

Lemma configuration_errors_are_fatal_witness :
  (_load_configuration "config.yml" fresh_world
     = Raised FileNotFoundError fresh_world ∧
   reload "config.yml" fresh_world = Some ∅) ∧
  (_load_configuration "config.yml" (world_with_file "config.yml" YNull)
     = Raised AttributeError (world_with_file "config.yml" YNull) ∧
   reload "config.yml" (world_with_file "config.yml" YNull) = Some ∅) ∧
  _load_configuration "config.yml"
    (world_with_file "config.yml" corrupt_cache_doc)
  = Raised MalformedEntry (world_with_file "config.yml" corrupt_cache_doc).
Proof.
  split; [| split].
  - apply (proj1 (configuration_errors_are_fatal "config.yml" fresh_world)).
    reflexivity.
  - apply (proj1 (proj2 (configuration_errors_are_fatal "config.yml"
                           (world_with_file "config.yml" YNull)))).
    reflexivity.
  - eapply (proj2 (proj2 (configuration_errors_are_fatal "config.yml"
                            (world_with_file "config.yml" corrupt_cache_doc)))
              _ "example.com").
    + reflexivity.
    + reflexivity.
    + left. reflexivity.
Defined.

(** ** Loading and saving the cache *)

Lemma reload_files (path : string) (w w' : World) :
  files w !! path = files w' !! path → reload path w = reload path w'.
Proof.
  intros Heq.
  unfold reload, _load_response_cache, try_except, bind, open_read.
  rewrite Heq. destruct (files w' !! path) as [[| v | items]|]; try done.
  by destruct (decide (map_Forall _ items)).
Qed.

Lemma reload_dumped (path : string) (d : gmap string DnsResponse) (w : World) :
  files w !! path = Some (YMap (_asdict <$> d)) → reload path w = Some d.
Proof. intros Hfile. unfold reload. by rewrite (load_of_dumped _ d). Qed.

(** X1: only a missing file is recovered by the cache loader.  A cache
    document that is not a mapping, or one with an entry that lacks one of
    the three fields, makes [_load_response_cache] raise, and [main] ends
    with that exception before the first cycle, the state as it was. *)
Theorem corrupt_cache_is_fatal (path : string) (w : World) :
  (∀ v E config n,
      files w !! path = Some (YScalar v) →
      _load_response_cache path w = Raised AttributeError w ∧
      main E config path n w = Raised AttributeError w) ∧
  (∀ items host entry E config n,
      files w !! path = Some (YMap items) →
      items !! host = Some entry →
      entry !! "ipv4" = None ∨ entry !! "expiry" = None
        ∨ entry !! "response_time" = None →
      _load_response_cache path w = Raised MalformedEntry w ∧
      main E config path n w = Raised MalformedEntry w).
Proof.
  split.
  - intros v E config n Hfile.
    assert (Hload : _load_response_cache path w = Raised AttributeError w).
    { unfold _load_response_cache, try_except, bind, open_read.
      by rewrite Hfile. }
    split; [done |]. unfold main, main_startup, bind. by rewrite Hload.
  - intros items host entry E config n Hfile Hentry Hmissing.
    assert (Hload : _load_response_cache path w = Raised MalformedEntry w).
    { unfold _load_response_cache, try_except, bind, open_read.
      rewrite Hfile.
      destruct (decide (map_Forall _ items)) as [Hok | _]; [| done].
      destruct (Hok host entry Hentry) as [c Hc].
      unfold response_of_entry in Hc.
      destruct Hmissing as [Hm | [Hm | Hm]]; rewrite Hm in Hc.
      - done.
      - by destruct (entry !! "ipv4") as [[]|].
      - destruct (entry !! "ipv4") as [[]|]; [| done | done].
        by destruct (entry !! "expiry") as [[]|]. }
    split; [done |]. unfold main, main_startup, bind. by rewrite Hload.
Qed.

Lemma corrupt_cache_is_fatal_witness :
  let w := world_with_file "response_cache.yml" corrupt_cache_doc in
  let w' := world_with_file "response_cache.yml" (YScalar (YStr "oops")) in
  (_load_response_cache "response_cache.yml" w' = Raised AttributeError w' ∧
   main env_ok sample_config "response_cache.yml" 3 w'
   = Raised AttributeError w') ∧
  (_load_response_cache "response_cache.yml" w = Raised MalformedEntry w ∧
   main env_ok sample_config "response_cache.yml" 3 w
   = Raised MalformedEntry w).
Proof.
  intros w w'. split.
  - apply (proj1 (corrupt_cache_is_fatal "response_cache.yml" w')
             (YStr "oops")).
    reflexivity.
  - eapply (proj2 (corrupt_cache_is_fatal "response_cache.yml" w)
              _ "example.com").
    + reflexivity.
    + reflexivity.
    + right. right. reflexivity.
Defined.

(** X2: an empty cache document and a document holding the empty mapping
    load as the empty store, without any log record and without a change of
    state, and [main] enters its loop with an empty store, as it does for a
    missing file. *)
Theorem empty_cache_starts_empty (path : string) (w : World) :
  files w !! path = Some YNull ∨ files w !! path = Some (YMap ∅) →
  _load_response_cache path w = Returned ∅ w ∧
  ∀ E config n,
    main E config path n w
    = main_loop E config path stale_check_predicate n
        (log_record INFO (CachedResponses ∅) (set_responses ∅ w)).
Proof.
  intros Hfile.
  assert (Hload : _load_response_cache path w = Returned ∅ w).
  { unfold _load_response_cache, try_except, bind, open_read.
    destruct Hfile as [-> | ->]; [done |].
    destruct (decide (map_Forall _ _)) as [_ | Hbad].
    - unfold ret. by rewrite omap_empty.
    - destruct Hbad. apply map_Forall_empty. }
  split; [done |].
  intros E config n. unfold main, main_startup, bind. by rewrite Hload.
Qed.

Lemma empty_cache_starts_empty_witness :
  let w := world_with_file "response_cache.yml" YNull in
  _load_response_cache "response_cache.yml" w = Returned ∅ w ∧
  ∀ E config n,
    main E config "response_cache.yml" n w
    = main_loop E config "response_cache.yml" stale_check_predicate n
        (log_record INFO (CachedResponses ∅) (set_responses ∅ w)).
Proof.
  intros w. apply (empty_cache_starts_empty "response_cache.yml" w).
  left. reflexivity.
Defined.

(** ** The cache file follows the store *)

(** The store and the files after a scan step: both as before, or the store
    updated at the scanned key with the response of a resolver answer and
    the cache file rewritten from the whole store, the other files as
    before. *)
Lemma scan_step_effect (E : Env) (config : list (string * HostConfiguration))
    (path host : string) (w : World) :
  let w' := final_world (scan_step E config path stale_check_predicate host w) in
  (responses w' = responses w ∧ files w' = files w) ∨
  (∃ answers,
      dns_resolver_query E host (clock w) = Some answers ∧
      responses w'
      = <[host := response_of_answer E host w answers]> (responses w) ∧
      files w' = <[path := YMap (_asdict <$> responses w')]> (files w)).
Proof.
  assert (Hbody :
    let w' := final_world (loop_body E config path host w) in
    (responses w' = responses w ∧ files w' = files w) ∨
    (∃ answers,
        dns_resolver_query E host (clock w) = Some answers ∧
        responses w'
        = <[host := response_of_answer E host w answers]> (responses w) ∧
        files w' = <[path := YMap (_asdict <$> responses w')]> (files w))).
  { rewrite loop_body_eq. simpl.
    destruct (dns_resolver_query E host (clock w)) as [answers|]; [| by left].
    destruct (is_notable _ _); [| right; by exists answers].
    destruct (config_get config host) as [host_config|]; [| by left].
    destruct (requests_post _ _ _ _); [by left | right; by exists answers]. }
  rewrite scan_step_eq.
  destruct (responses w !! host) as [response|]; [| exact Hbody].
  destruct (expiry response <? clock w); [exact Hbody | by left].
Qed.

Lemma schedule_sleep_files (w : World) :
  files (final_world (schedule_sleep w)) = files w.
Proof.
  rewrite schedule_sleep_eq. by destruct (next_check (responses w)).
Qed.

Lemma load_returned_files (path : string) (d : gmap string DnsResponse)
    (w w' : World) :
  _load_response_cache path w = Returned d w' →
  files w' = files w ∧ responses w' = responses w ∧ clock w' = clock w.
Proof.
  unfold _load_response_cache, try_except, bind, open_read.
  destruct (files w !! path) as [[| v | items]|]; simpl.
  - by intros [= _ <-].
  - done.
  - destruct (decide (map_Forall _ items)); [by intros [= _ <-] | done].
  - by intros [= _ <-].
Qed.

Lemma synced_step (E : Env) (config : list (string * HostConfiguration))
    (path host : string) (w : World) :
  synced path w
    (final_world (scan_step E config path stale_check_predicate host w)).
Proof.
  intros Hsync.
  destruct (scan_step_effect E config path host w)
    as [[Hr Hf] | (answers & _ & _ & Hf)].
  - rewrite Hr, <- Hsync. apply reload_files. by rewrite Hf.
  - apply reload_dumped. rewrite Hf. apply lookup_insert_eq.
Qed.

Lemma synced_sleep (path : string) (w : World) :
  synced path w (final_world (schedule_sleep w)).
Proof.
  intros Hsync. rewrite schedule_sleep_responses, <- Hsync.
  apply reload_files. by rewrite schedule_sleep_files.
Qed.

Lemma main_loop_synced (E : Env) (config : list (string * HostConfiguration))
    (path : string) (n : nat) (w : World) :
  synced path w
    (final_world (main_loop E config path stale_check_predicate n w)).
Proof.
  apply (main_loop_preserves E config path (synced path) (fun _ => True)).
  - intros w1 H1. exact H1.
  - intros w1 w2 w3 H12 H23 H1. by apply H23, H12.
  - intros host w1 _. apply synced_step.
  - intros w1. apply synced_sleep.
  - by apply Forall_true.
Qed.

(** X3: as long as every save of the run has returned, the cache file
    follows the store.  When the cache file loads as the store and [n]
    iterations of the loop complete, or the loop ends with the exception of
    the resolver, of the webhook request or of [min] (each raised before
    line 102 or after line 103), the file loads as the store of that
    moment: a restart would load the store as the run left it.  So it is
    for a run of [main] from the loading of the cache on. *)
Theorem cache_file_tracks_store (E : Env)
    (config : list (string * HostConfiguration)) (path : string) (n : nat) :
  (∀ w w',
      reload path w = Some (responses w) →
      main_loop E config path stale_check_predicate n w = Returned tt w' →
      reload path w' = Some (responses w')) ∧
  (∀ w w' e,
      reload path w = Some (responses w) →
      main_loop E config path stale_check_predicate n w = Raised e w' →
      e = DNSException ∨ e = RequestException ∨ e = ValueError →
      reload path w' = Some (responses w')) ∧
  (∀ w0 w',
      is_Some (reload path w0) →
      main E config path n w0 = Returned tt w' →
      reload path w' = Some (responses w')).
Proof.
  split; [| split].
  - intros w w' Hsync Hrun.
    pose proof (main_loop_synced E config path n w Hsync) as H.
    by rewrite Hrun in H.
  - intros w w' e Hsync Hrun _.
    pose proof (main_loop_synced E config path n w Hsync) as H.
    by rewrite Hrun in H.
  - intros w0 w' [d Hd] Hrun. unfold reload in Hd.
    destruct (_load_response_cache path w0) as [d' w1 | e w1] eqn:Hload;
      [| done].
    injection Hd as ->.
    destruct (load_returned_files _ _ _ _ Hload) as (Hf & _ & _).
    unfold main, main_startup, bind in Hrun. rewrite Hload in Hrun.
    simpl in Hrun.
    match type of Hrun with
    | main_loop _ _ _ _ _ ?w2 = _ =>
        pose proof (main_loop_synced E config path n w2) as H
    end.
    rewrite Hrun in H. apply H. simpl.
    rewrite <- (reload_files path w0).
    + unfold reload. by rewrite Hload.
    + simpl. by rewrite Hf.
Qed.

Lemma cache_file_tracks_store_witness :
  ∃ w',
    is_Some (reload "response_cache.yml" fresh_world) ∧
    main env_ok sample_config "response_cache.yml" 2 fresh_world
      = Returned tt w' ∧
    reload "response_cache.yml" w' = Some (responses w') ∧
    responses w' !! "example.com" = Some (mkDnsResponse "1.2.3.4" 1301 1001).
Proof.
  eexists. split; [by eexists |].
  split; [vm_compute; reflexivity |].
  split; [| reflexivity].
  eapply (proj2 (proj2 (cache_file_tracks_store env_ok sample_config
                          "response_cache.yml" 2)) fresh_world).
  - by eexists.
  - vm_compute. reflexivity.
Defined.

(** X4: when the loop body returns for a host, the cache file holds the
    whole store, the entries of the other hosts included, whatever the file
    held before; the entries of the other hosts and the other files are as
    they were. *)
Theorem loop_body_persists_whole_store (E : Env)
    (config : list (string * HostConfiguration)) (path host : string)
    (w w1 : World) :
  loop_body E config path host w = Returned tt w1 →
  reload path w1 = Some (responses w1) ∧
  (∀ other, other ≠ host → responses w1 !! other = responses w !! other) ∧
  (∀ other, other ≠ path → files w1 !! other = files w !! other).
Proof.
  intros Hbody. rewrite loop_body_eq in Hbody. simpl in Hbody.
  destruct (dns_resolver_query E host (clock w)) as [answers|]; [| done].
  assert (Hstored : ∀ w0,
    files w0 = files w → responses w0 = responses w →
    let response := response_of_answer E host w answers in
    reload path (stored path host response w0)
      = Some (responses (stored path host response w0)) ∧
    (∀ other, other ≠ host →
       responses (stored path host response w0) !! other
       = responses w !! other) ∧
    (∀ other, other ≠ path →
       files (stored path host response w0) !! other = files w !! other)).
  { intros w0 Hf Hr response. split; [| split].
    - apply reload_dumped. simpl. apply lookup_insert_eq.
    - intros other Hne. simpl. rewrite Hr. by apply lookup_insert_ne.
    - intros other Hne. simpl. rewrite Hf. by apply lookup_insert_ne. }
  destruct (is_notable _ _).
  - destruct (config_get config host) as [host_config|]; [| done].
    destruct (requests_post _ _ _ _); [done |].
    injection Hbody as <-. by apply Hstored.
  - injection Hbody as <-. by apply Hstored.
Qed.

Lemma loop_body_persists_whole_store_witness :
  let w1 := first_resolution in
  reload "response_cache.yml" w1 = Some (responses w1) ∧
  (∀ other, other ≠ "example.com" →
            responses w1 !! other = responses orphan_world !! other) ∧
  (∀ other, other ≠ "response_cache.yml" →
            files w1 !! other = files orphan_world !! other).
Proof.
  apply (loop_body_persists_whole_store env_ok sample_config
           "response_cache.yml" "example.com" orphan_world first_resolution).
  reflexivity.
Defined.

(** ** What the loop never does *)

Lemma schedule_sleep_queries (host : string) (w : World) :
  dns_queries host (log (final_world (schedule_sleep w)))
  = dns_queries host (log w).
Proof.
  rewrite schedule_sleep_eq.
  destruct (next_check (responses w)); simpl; [| done].
  by apply dns_queries_snoc.
Qed.

(** X5: a host that is not a key of the configuration is never queried,
    over any number of iterations of the loop, also when its entry in the
    store has expired. *)
Theorem only_configured_hosts_are_queried (E : Env)
    (config : list (string * HostConfiguration)) (path host : string)
    (n : nat) (w : World) :
  host ∉ config_keys config →
  dns_queries host
    (log (final_world (main_loop E config path stale_check_predicate n w)))
  = dns_queries host (log w).
Proof.
  intros Hnotin.
  apply (main_loop_preserves E config path
           (fun w w' => dns_queries host (log w') = dns_queries host (log w))
           (fun key => key ≠ host)).
  - done.
  - intros w1 w2 w3 H12 H23. congruence.
  - intros key w1 Hne. by apply scan_step_queries.
  - intros w1. apply schedule_sleep_queries.
  - apply Forall_forall. by intros key Hin ->.
Qed.

Lemma only_configured_hosts_are_queried_witness :
  dns_queries "removed.example"
    (log (final_world
            (main_loop env_ok sample_config "response_cache.yml"
               stale_check_predicate 4 orphan_world)))
  = dns_queries "removed.example" (log orphan_world).
Proof.
  apply (only_configured_hosts_are_queried env_ok sample_config
           "response_cache.yml" "removed.example" 4 orphan_world).
  apply (bool_decide_unpack _). vm_compute. exact I.
Defined.

Lemma posts_between_refl (Q : string * string -> Prop) (w : World) :
  posts_between Q w w.
Proof. exists []. split; [by rewrite app_nil_r | done]. Qed.

Lemma posts_between_trans (Q : string * string -> Prop) (w1 w2 w3 : World) :
  posts_between Q w1 w2 → posts_between Q w2 w3 → posts_between Q w1 w3.
Proof.
  intros (n1 & H1 & Q1) (n2 & H2 & Q2). exists (n1 ++ n2). split.
  - by rewrite H2, H1, app_assoc.
  - by apply Forall_app.
Qed.

Lemma posts_between_same (Q : string * string -> Prop) (w w' : World) :
  posts w' = posts w → posts_between Q w w'.
Proof. intros H. exists []. split; [by rewrite app_nil_r | done]. Qed.

Lemma posts_between_step (E : Env) (config : list (string * HostConfiguration))
    (path host : string) (w : World) :
  host ∈ config_keys config →
  posts_between (configured_post config) w
    (final_world (scan_step E config path stale_check_predicate host w)).
Proof.
  intros Hin.
  assert (Hbody : posts_between (configured_post config) w
                    (final_world (loop_body E config path host w))).
  { rewrite loop_body_eq. simpl.
    destruct (dns_resolver_query E host (clock w)) as [answers|];
      [| by apply posts_between_same].
    destruct (is_notable _ _); [| by apply posts_between_same].
    destruct (config_get config host) as [host_config|] eqn:Hconfig;
      [| by apply posts_between_same].
    assert (Hone : ∀ w',
      posts w' = posts w ++ [(webhook_uri host_config,
                              notification_content host host_config
                                (response_of_answer E host w answers))] →
      posts_between (configured_post config) w w').
    { intros w' Hw'. eexists. split; [exact Hw' |].
      apply Forall_singleton.
      by exists host, host_config, (response_of_answer E host w answers). }
    destruct (requests_post _ _ _ _); by apply Hone. }
  rewrite scan_step_eq.
  destruct (responses w !! host) as [response|]; [| exact Hbody].
  destruct (expiry response <? clock w);
    [exact Hbody | apply posts_between_refl].
Qed.

Lemma posts_between_sleep (Q : string * string -> Prop) (w : World) :
  posts_between Q w (final_world (schedule_sleep w)).
Proof.
  apply posts_between_same. rewrite schedule_sleep_eq.
  by destruct (next_check (responses w)).
Qed.

(** X6: the requests made during any number of iterations of the loop are
    appended to those made before, none is undone, and each of them goes to
    the webhook URI of a configured host with the message of that host. *)
Theorem posts_go_to_configured_webhooks (E : Env)
    (config : list (string * HostConfiguration)) (path : string) (n : nat)
    (w : World) :
  ∃ new,
    posts (final_world (main_loop E config path stale_check_predicate n w))
    = posts w ++ new ∧
    Forall (configured_post config) new.
Proof.
  apply (main_loop_preserves E config path
           (posts_between (configured_post config))
           (fun key => key ∈ config_keys config)).
  - apply posts_between_refl.
  - apply posts_between_trans.
  - intros key w1 Hin. by apply posts_between_step.
  - apply posts_between_sleep.
  - by apply Forall_forall.
Qed.

(** ** One scan of the configuration *)

Lemma dns_queries_snoc_same (host : string) (l : list (level * message))
    (lv : level) :
  dns_queries host (l ++ [(lv, RetrievingARecord host)])
  = S (dns_queries host l).
Proof.
  unfold dns_queries. rewrite filter_app, length_app.
  rewrite filter_cons_True by done. simpl. lia.
Qed.

Lemma loop_body_queries_self (E : Env)
    (config : list (string * HostConfiguration)) (path host : string)
    (w : World) :
  dns_queries host (log (final_world (loop_body E config path host w)))
  = S (dns_queries host (log w)).
Proof.
  rewrite loop_body_eq. simpl.
  pose proof (dns_queries_snoc_same host (log w) DEBUG) as H1.
  destruct (dns_resolver_query E host (clock w)) as [answers|]; [| exact H1].
  destruct (is_notable _ _); simpl.
  - destruct (config_get config host) as [host_config|]; simpl.
    + destruct (requests_post _ _ _ _); simpl;
        by rewrite !dns_queries_snoc by congruence.
    + by rewrite !dns_queries_snoc by congruence.
  - by rewrite !dns_queries_snoc by congruence.
Qed.

Lemma scan_step_queries_self (E : Env)
    (config : list (string * HostConfiguration)) (path host : string)
    (w : World) :
  (dns_queries host
     (log (final_world (scan_step E config path stale_check_predicate host w)))
   <= S (dns_queries host (log w)))%nat.
Proof.
  rewrite scan_step_eq.
  destruct (responses w !! host) as [r|].
  - destruct (expiry r <? clock w); [| simpl; lia].
    by rewrite loop_body_queries_self.
  - by rewrite loop_body_queries_self.
Qed.

Lemma for_stale_hosts_queries_other (E : Env)
    (config : list (string * HostConfiguration)) (path host : string)
    (keys : list string) (w : World) :
  host ∉ keys →
  dns_queries host
    (log (final_world
            (for_stale_hosts E config path stale_check_predicate keys w)))
  = dns_queries host (log w).
Proof.
  intros Hnotin.
  apply (for_stale_hosts_preserves E config path
           (fun w w' => dns_queries host (log w') = dns_queries host (log w))
           (fun key => key ≠ host)).
  - done.
  - intros w1 w2 w3 H12 H23. congruence.
  - intros key w1 Hne. by apply scan_step_queries.
  - apply Forall_forall. by intros key Hin ->.
Qed.

(** X7: in one cycle over a configuration without duplicate keys, as a
    dict has none, each host is queried at most once. *)
Theorem one_query_per_host_per_cycle (E : Env)
    (config : list (string * HostConfiguration)) (path host : string)
    (w : World) :
  NoDup (config_keys config) →
  (dns_queries host
     (log (final_world (cycle E config path stale_check_predicate w)))
   <= S (dns_queries host (log w)))%nat.
Proof.
  intros Hnd.
  assert (Hscan : ∀ keys w0, NoDup keys →
    (dns_queries host
       (log (final_world
               (for_stale_hosts E config path stale_check_predicate keys w0)))
     <= S (dns_queries host (log w0)))%nat).
  { induction keys as [|key rest IH]; intros w0 Hkeys; [simpl; lia |].
    apply NoDup_cons in Hkeys as [Hkey Hrest].
    rewrite for_stale_hosts_cons.
    destruct (decide (key = host)) as [-> | Hne].
    - pose proof (scan_step_queries_self E config path host w0) as Hstep.
      destruct (scan_step E config path stale_check_predicate host w0)
        as [[] w1 | e w1]; simpl in *; [| done].
      by rewrite for_stale_hosts_queries_other.
    - pose proof (scan_step_queries E config path key host w0 Hne) as Hstep.
      destruct (scan_step E config path stale_check_predicate key w0)
        as [[] w1 | e w1]; simpl in *; [| lia].
      rewrite <- Hstep. by apply IH. }
  rewrite cycle_eq. specialize (Hscan (config_keys config) w Hnd).
  destruct (for_stale_hosts _ _ _ _ _ w) as [[] w1 | e w1]; simpl in *;
    [| done].
  by rewrite schedule_sleep_queries.
Qed.

Lemma one_query_per_host_per_cycle_witness :
  (dns_queries "example.com"
     (log (final_world
             (cycle env_ok two_hosts_config "response_cache.yml"
                stale_check_predicate fresh_world)))
   <= S (dns_queries "example.com" (log fresh_world)))%nat.
Proof.
  apply (one_query_per_host_per_cycle env_ok two_hosts_config
           "response_cache.yml" "example.com" fresh_world).
  apply (bool_decide_unpack _). vm_compute. exact I.
Defined.

Lemma for_stale_hosts_dom (E : Env) (config : list (string * HostConfiguration))
    (path : string) (keys : list string) (w : World) :
  dom (responses w) ⊆
  dom (responses
         (final_world
            (for_stale_hosts E config path stale_check_predicate keys w))).
Proof.
  apply (for_stale_hosts_preserves E config path
           (fun w w' => dom (responses w) ⊆ dom (responses w'))
           (fun _ => True)).
  - done.
  - intros w1 w2 w3 H12 H23. set_solver.
  - intros host w1 _. apply scan_step_dom.
  - by apply Forall_true.
Qed.

Lemma scan_step_returned_present (E : Env)
    (config : list (string * HostConfiguration)) (path host : string)
    (w w1 : World) :
  scan_step E config path stale_check_predicate host w = Returned tt w1 →
  host ∈ dom (responses w1).
Proof.
  rewrite scan_step_eq. intros Hstep.
  assert (Hbody : loop_body E config path host w = Returned tt w1 →
                  host ∈ dom (responses w1)).
  { intros (answers & _ & -> & _)%loop_body_returned.
    rewrite dom_insert_L. set_solver. }
  destruct (responses w !! host) as [r|] eqn:Hr; [| by apply Hbody].
  destruct (expiry r <? clock w); [by apply Hbody |].
  injection Hstep as <-. apply elem_of_dom. by eexists.
Qed.

Lemma for_stale_hosts_returned_present (E : Env)
    (config : list (string * HostConfiguration)) (path : string)
    (keys : list string) (w w1 : World) (host : string) :
  for_stale_hosts E config path stale_check_predicate keys w = Returned tt w1 →
  host ∈ keys →
  is_Some (responses w1 !! host).
Proof.
  revert w. induction keys as [|key rest IH]; intros w Hscan Hin.
  - by apply elem_of_nil in Hin.
  - rewrite for_stale_hosts_cons in Hscan.
    destruct (scan_step E config path stale_check_predicate key w)
      as [[] w' | e w'] eqn:Hstep; [| done].
    apply elem_of_cons in Hin as [-> | Hin]; [| by apply (IH w')].
    apply elem_of_dom.
    pose proof (for_stale_hosts_dom E config path rest w') as Hdom.
    rewrite Hscan in Hdom. simpl in Hdom.
    apply Hdom. by apply (scan_step_returned_present E config path key w).
Qed.

(** X10: when a cycle completes, every key of the configuration has an
    entry in the store, so a completed cycle over a configuration with at
    least one host leaves a store that is not empty. *)
Theorem completed_cycle_covers_config (E : Env)
    (config : list (string * HostConfiguration)) (path : string)
    (w w1 : World) (s : Z) :
  cycle E config path stale_check_predicate w = Returned s w1 →
  (∀ host, host ∈ config_keys config → is_Some (responses w1 !! host)) ∧
  (config ≠ [] → responses w1 ≠ ∅).
Proof.
  rewrite cycle_eq. intros Hcycle.
  destruct (for_stale_hosts E config path stale_check_predicate
              (config_keys config) w) as [[] w0 | e w0] eqn:Hscan; [| done].
  pose proof (schedule_sleep_responses w0) as Hsleep.
  rewrite Hcycle in Hsleep. simpl in Hsleep.
  assert (Hall : ∀ host, host ∈ config_keys config →
                         is_Some (responses w1 !! host)).
  { intros host Hin. rewrite Hsleep.
    by apply (for_stale_hosts_returned_present _ _ _ _ _ _ _ Hscan). }
  split; [exact Hall |].
  intros Hne Hempty. destruct config as [|[key c] rest]; [done |].
  destruct (Hall key) as [r Hr]; [apply list_elem_of_here |].
  rewrite Hempty in Hr. by rewrite lookup_empty in Hr.
Qed.

Lemma completed_cycle_covers_config_witness :
  ∃ w1,
    cycle env_ok sample_config "response_cache.yml" stale_check_predicate
      fresh_world = Returned 298 w1 ∧
    (∀ host, host ∈ config_keys sample_config →
             is_Some (responses w1 !! host)) ∧
    (sample_config ≠ [] → responses w1 ≠ ∅).
Proof.
  eexists. split; [vm_compute; reflexivity |].
  eapply (completed_cycle_covers_config env_ok sample_config
            "response_cache.yml" fresh_world).
  vm_compute. reflexivity.
Defined.

(** ** The exceptions of a cycle *)

Lemma loop_body_raised (E : Env) (config : list (string * HostConfiguration))
    (path host : string) (w w' : World) (e : exn) :
  is_Some (config_get config host) →
  loop_body E config path host w = Raised e w' →
  e = DNSException ∨ e = RequestException.
Proof.
  intros [host_config Hconfig]. rewrite loop_body_eq. simpl.
  destruct (dns_resolver_query E host (clock w)) as [answers|];
    [| intros [= <- _]; by left].
  destruct (is_notable _ _); [| done].
  rewrite Hconfig.
  destruct (requests_post _ _ _ _); [intros [= <- _]; by right | done].
Qed.

Lemma for_stale_hosts_raised (E : Env)
    (config : list (string * HostConfiguration)) (path : string)
    (keys : list string) (w w' : World) (e : exn) :
  Forall (fun key => key ∈ config_keys config) keys →
  for_stale_hosts E config path stale_check_predicate keys w = Raised e w' →
  e = DNSException ∨ e = RequestException.
Proof.
  intros Hkeys. revert w.
  induction Hkeys as [|key rest Hkey _ IH]; intros w; [done |].
  rewrite for_stale_hosts_cons.
  destruct (scan_step E config path stale_check_predicate key w)
    as [[] w1 | e1 w1] eqn:Hstep; [apply IH |].
  intros [= -> ->]. rewrite scan_step_eq in Hstep.
  apply config_get_is_Some in Hkey.
  destruct (responses w !! key) as [r|];
    [| by apply (loop_body_raised _ _ _ _ _ _ _ Hkey Hstep)].
  destruct (expiry r <? clock w); [| done].
  by apply (loop_body_raised _ _ _ _ _ _ _ Hkey Hstep).
Qed.

Lemma cycle_raised_inv (E : Env) (config : list (string * HostConfiguration))
    (path : string) (w w' : World) (e : exn) :
  cycle E config path stale_check_predicate w = Raised e w' →
  e = DNSException ∨ e = RequestException ∨
  (e = ValueError ∧ config = [] ∧ responses w = ∅ ∧ w' = w).
Proof.
  rewrite cycle_eq.
  destruct (for_stale_hosts E config path stale_check_predicate
              (config_keys config) w) as [[] w0 | e0 w0] eqn:Hscan.
  - rewrite schedule_sleep_eq.
    destruct (next_check (responses w0)) as [next|] eqn:Hnext; [done |].
    intros [= <- <-]. right. right. split; [done |].
    apply next_check_None in Hnext.
    assert (Hconfig : config = []).
    { destruct config as [|[key c] rest]; [done |].
      destruct (for_stale_hosts_returned_present _ _ _ _ _ _ key Hscan)
        as [r Hr]; [apply list_elem_of_here |].
      rewrite Hnext in Hr. by rewrite lookup_empty in Hr. }
    subst config. simpl in Hscan. injection Hscan as ->. done.
  - intros [= <- <-].
    destruct (for_stale_hosts_raised _ _ _ _ _ _ _
                (proj2 (Forall_forall _ _) (fun _ H => H)) Hscan)
      as [-> | ->]; [by left | right; by left].
Qed.

(** X12: the lookup [config[stale_host]] of line 100 never fails: over any
    number of iterations the loop does not end with [KeyError], the key
    coming from [config.keys()] and the configuration not changing. *)
Theorem stale_host_lookup_never_fails (E : Env)
    (config : list (string * HostConfiguration)) (path : string) (n : nat)
    (w w' : World) (e : exn) :
  main_loop E config path stale_check_predicate n w = Raised e w' →
  e ≠ KeyError.
Proof.
  revert w. induction n as [|n IH]; intros w; [done |].
  simpl. unfold bind.
  destruct (cycle E config path stale_check_predicate w)
    as [s w1 | e1 w1] eqn:Hcycle; [apply IH |].
  intros [= -> ->].
  destruct (cycle_raised_inv _ _ _ _ _ _ Hcycle)
    as [-> | [-> | [-> _]]]; done.
Qed.

Lemma stale_host_lookup_never_fails_witness :
  ∃ w',
    main_loop env_unreachable sample_config "response_cache.yml"
      stale_check_predicate 2 fresh_world = Raised RequestException w' ∧
    RequestException ≠ KeyError.
Proof.
  eexists. split; [vm_compute; reflexivity |].
  eapply (stale_host_lookup_never_fails env_unreachable sample_config
            "response_cache.yml" 2 fresh_world).
  vm_compute. reflexivity.
Defined.

(** X11: a cycle ends with the [ValueError] of [min] exactly when the
    configuration has no host and the store is empty, and then nothing has
    happened in that cycle; with at least one host configured, or one entry
    in the store, line 105 never fails. *)
Theorem value_error_iff_nothing_to_watch (E : Env)
    (config : list (string * HostConfiguration)) (path : string)
    (w w' : World) :
  cycle E config path stale_check_predicate w = Raised ValueError w' ↔
  config = [] ∧ responses w = ∅ ∧ w' = w.
Proof.
  split.
  - intros Hcycle.
    destruct (cycle_raised_inv _ _ _ _ _ _ Hcycle)
      as [? | [? | (_ & ? & ? & ?)]]; done.
  - intros (-> & Hempty & ->). rewrite cycle_eq. simpl.
    by apply schedule_sleep_empty.
Qed.

(** ** Where the entries of the store come from *)

Lemma from_before_or_resolved_step (E : Env)
    (config : list (string * HostConfiguration)) (path key : string)
    (w : World) :
  key ∈ config_keys config →
  from_before_or_resolved E config w
    (final_world (scan_step E config path stale_check_predicate key w)).
Proof.
  intros Hin host r.
  destruct (scan_step_effect E config path key w)
    as [[-> _] | (answers & Hdns & -> & _)]; [by left |].
  rewrite lookup_insert. case_decide as Hkey; [| by left].
  intros [= <-]. subst host. right. split; [done |].
  by exists (clock w), answers.
Qed.

(** X18: an entry of the store after any number of iterations of the loop
    is the entry the store had for that host before, or holds the address
    and the expiration of an answer of the resolver for that host, a key of
    the configuration: the expiry is the resolver's, never a value of the
    program's own. *)
Theorem store_entries_are_resolved (E : Env)
    (config : list (string * HostConfiguration)) (path : string) (n : nat)
    (w : World) (host : string) (r : DnsResponse) :
  responses (final_world (main_loop E config path stale_check_predicate n w))
    !! host = Some r →
  responses w !! host = Some r ∨
  (host ∈ config_keys config ∧ resolved_entry E host r).
Proof.
  revert host r.
  apply (main_loop_preserves E config path (from_before_or_resolved E config)
           (fun key => key ∈ config_keys config)).
  - intros w1 host r Hr. by left.
  - intros w1 w2 w3 H12 H23 host r Hr.
    destruct (H23 host r Hr) as [Hr2 | Hres]; [by apply H12 | by right].
  - intros key w1 Hin. by apply from_before_or_resolved_step.
  - intros w1 host r. rewrite schedule_sleep_responses. by left.
  - by apply Forall_forall.
Qed.

Lemma store_entries_are_resolved_witness :
  let after :=
    final_world (main_loop env_ok sample_config "response_cache.yml"
                   stale_check_predicate 1 fresh_world) in
  let r := mkDnsResponse "1.2.3.4" 1301 1001 in
  responses after !! "example.com" = Some r ∧
  (responses fresh_world !! "example.com" = Some r ∨
   ("example.com" ∈ config_keys sample_config ∧
    resolved_entry env_ok "example.com" r)).
Proof.
  intros after r. split; [reflexivity |].
  apply (store_entries_are_resolved env_ok sample_config "response_cache.yml"
           1 fresh_world "example.com" r).
  reflexivity.
Defined.

(** ** Cycles with nothing to do, and the time a cycle takes *)

(** X19: when every key of the configuration has an entry whose expiry has
    not passed, the scan does nothing at all (no query, no request, no file
    written, no log record, no time spent) and the cycle is the sleep
    alone. *)
Theorem idle_scan_has_no_effect (E : Env)
    (config : list (string * HostConfiguration)) (path : string) (w : World) :
  all_fresh (config_keys config) w →
  for_stale_hosts E config path stale_check_predicate (config_keys config) w
    = Returned tt w ∧
  cycle E config path stale_check_predicate w = schedule_sleep w.
Proof.
  intros Hfresh.
  assert (Hscan : for_stale_hosts E config path stale_check_predicate
                    (config_keys config) w = Returned tt w).
  { unfold all_fresh in Hfresh.
    induction Hfresh as [|key rest (r & Hr & Hle) _ IH]; [done |].
    rewrite for_stale_hosts_cons.
    by rewrite (scan_step_fresh E config path key r w Hr Hle). }
  split; [exact Hscan |]. by rewrite cycle_eq, Hscan.
Qed.

Lemma idle_scan_has_no_effect_witness :
  let w :=
    world_at 1000 {["example.com" := mkDnsResponse "1.2.3.4" 1100 800]} in
  for_stale_hosts env_unreachable sample_config "response_cache.yml"
    stale_check_predicate (config_keys sample_config) w = Returned tt w ∧
  cycle env_unreachable sample_config "response_cache.yml"
    stale_check_predicate w = schedule_sleep w.
Proof.
  intros w.
  apply (idle_scan_has_no_effect env_unreachable sample_config
           "response_cache.yml" w).
  constructor; [| constructor].
  exists (mkDnsResponse "1.2.3.4" 1100 800).
  split; [reflexivity | simpl; lia].
Defined.

Lemma for_stale_hosts_clock (E : Env)
    (config : list (string * HostConfiguration)) (path : string)
    (keys : list string) (w : World) :
  causal E →
  clock w <=
  clock (final_world
           (for_stale_hosts E config path stale_check_predicate keys w)).
Proof.
  intros Hc.
  apply (for_stale_hosts_preserves E config path
           (fun w w' => clock w <= clock w') (fun _ => True)).
  - intros w1. lia.
  - intros w1 w2 w3 H12 H23. lia.
  - intros key w1 _. by apply scan_step_clock.
  - by apply Forall_true.
Qed.

Lemma cycle_returned_clock (E : Env)
    (config : list (string * HostConfiguration)) (path : string)
    (w w1 : World) (s : Z) :
  causal E →
  cycle E config path stale_check_predicate w = Returned s w1 →
  30 <= s ∧ clock w + s <= clock w1 ∧
  ∃ host r, responses w1 !! host = Some r ∧ expiry r <= clock w1.
Proof.
  intros Hc. rewrite cycle_eq.
  pose proof (for_stale_hosts_clock E config path (config_keys config) w Hc)
    as Hmono.
  destruct (for_stale_hosts _ _ _ _ _ w) as [[] w0 | e w0]; [| done].
  simpl in Hmono. rewrite schedule_sleep_eq.
  destruct (next_check (responses w0)) as [next|] eqn:Hnext; [| done].
  simpl. intros [= <- <-]. simpl.
  split; [lia |]. split; [lia |].
  apply next_check_Some in Hnext as [(host & r & Hr & Hexp) _].
  exists host, r. split; [done | lia].
Qed.

(** X8: with a resolver and an endpoint that take no negative time, every
    completed cycle sleeps at least 30 seconds and ends at least that much
    later than it began, so [n] completed iterations take at least [30 * n]
    seconds; and at the end of a completed cycle the clock has reached the
    expiry of at least one entry of the store. *)
Theorem completed_cycles_take_time (E : Env)
    (config : list (string * HostConfiguration)) (path : string) :
  causal E →
  (∀ w w1 s,
      cycle E config path stale_check_predicate w = Returned s w1 →
      30 <= s ∧ clock w + s <= clock w1 ∧
      ∃ host r, responses w1 !! host = Some r ∧ expiry r <= clock w1) ∧
  (∀ n w w1,
      main_loop E config path stale_check_predicate n w = Returned tt w1 →
      clock w + 30 * Z.of_nat n <= clock w1).
Proof.
  intros Hc. split.
  - intros w w1 s. by apply cycle_returned_clock.
  - induction n as [|n IH]; intros w w1.
    + simpl. intros [= <-]. lia.
    + simpl. unfold bind.
      destruct (cycle E config path stale_check_predicate w)
        as [s w0 | e w0] eqn:Hcycle; [| done].
      intros Hrest. specialize (IH _ _ Hrest).
      destruct (cycle_returned_clock _ _ _ _ _ _ Hc Hcycle) as (Hs & Hclock & _).
      lia.
Qed.

Lemma completed_cycles_take_time_witness :
  ∃ w1,
    main_loop env_ok sample_config "response_cache.yml" stale_check_predicate
      3 fresh_world = Returned tt w1 ∧
    clock fresh_world + 30 * Z.of_nat 3 <= clock w1.
Proof.
  eexists. split; [vm_compute; reflexivity |].
  eapply (proj2 (completed_cycles_take_time env_ok sample_config
                   "response_cache.yml" (causal_env_http (HttpStatus 204)))
            3%nat fresh_world).
  vm_compute. reflexivity.
Defined.

(** ** Notifications *)

Lemma notification_iff_notable_witness :
  let host_config := mkHostConfiguration "Example" "https://hooks.example/1" in
  posts (final_world
           (loop_body env_ok sample_config "response_cache.yml" "example.com"
              orphan_world))
  = [("https://hooks.example/1",
      "IP address for **Example** (example.com) is now **1.2.3.4**")].
Proof.
  intros host_config.
  apply (notification_iff_notable env_ok sample_config "response_cache.yml"
           "example.com" host_config (mkAnswer "1.2.3.4" 1301) orphan_world).
  - reflexivity.
  - reflexivity.
Defined.

(** X14: when a host resolves to the address its entry already holds, the
    loop body returns without contacting the webhook, whatever the endpoint
    would answer and whether or not the host has a configuration: no
    request is made and no change is logged, and the entry is replaced by
    the new response, with the expiration of the answer and the time of the
    query's return. *)
Theorem unchanged_address_refreshes_entry (E : Env)
    (config : list (string * HostConfiguration)) (path host : string)
    (old : DnsResponse) (answers : Answer) (w : World) :
  responses w !! host = Some old →
  dns_resolver_query E host (clock w) = Some answers →
  address answers = ipv4 old →
  ∃ w1,
    loop_body E config path host w = Returned tt w1 ∧
    posts w1 = posts w ∧
    log w1 = log w ++ [(DEBUG, RetrievingARecord host);
                       (DEBUG, ReceivedResponse
                                 (response_of_answer E host w answers))] ∧
    responses w1 !! host
    = Some (mkDnsResponse (ipv4 old) (expiration answers)
              (clock w + dns_elapsed E host (clock w))) ∧
    clock w1 = clock w + dns_elapsed E host (clock w).
Proof.
  intros Hold Hdns Haddr. rewrite loop_body_eq, Hdns, Hold. simpl.
  destruct (decide (ipv4 old = address answers)) as [_ | Hne];
    [| by destruct Hne].
  eexists. split; [reflexivity |]. simpl.
  split; [done |]. split; [by rewrite <- app_assoc |].
  split; [| done]. rewrite lookup_insert_eq.
  unfold response_of_answer. by rewrite Haddr.
Qed.

Lemma unchanged_address_refreshes_entry_witness :
  let old := mkDnsResponse "1.2.3.4" 900 600 in
  let w := world_at 1000 {["example.com" := old]} in
  ∃ w1,
    loop_body env_unreachable [] "response_cache.yml" "example.com" w
      = Returned tt w1 ∧
    posts w1 = posts w ∧
    log w1 = log w ++ [(DEBUG, RetrievingARecord "example.com");
                       (DEBUG, ReceivedResponse
                                 (mkDnsResponse "1.2.3.4" 1301 1001))] ∧
    responses w1 !! "example.com" = Some (mkDnsResponse "1.2.3.4" 1301 1001) ∧
    clock w1 = 1001.
Proof.
  intros old w.
  apply (unchanged_address_refreshes_entry env_unreachable []
           "response_cache.yml" "example.com" old (mkAnswer "1.2.3.4" 1301) w).
  - reflexivity.
  - reflexivity.
  - reflexivity.
Defined.

(** ** Stale hosts are resolved *)

Lemma for_stale_hosts_other (E : Env)
    (config : list (string * HostConfiguration)) (path host : string)
    (keys : list string) (w : World) :
  host ∉ keys →
  responses
    (final_world (for_stale_hosts E config path stale_check_predicate keys w))
    !! host
  = responses w !! host.
Proof.
  intros Hnotin.
  apply (for_stale_hosts_preserves E config path
           (fun w w' => responses w' !! host = responses w !! host)
           (fun key => key ≠ host)).
  - done.
  - intros w1 w2 w3 H12 H23. congruence.
  - intros key w1 Hne. by apply scan_step_other.
  - apply Forall_forall. by intros key Hin ->.
Qed.

Lemma scan_step_stale (E : Env) (config : list (string * HostConfiguration))
    (path host : string) (w : World) :
  stale_in host w →
  scan_step E config path stale_check_predicate host w
  = loop_body E config path host w.
Proof.
  unfold stale_in. rewrite scan_step_eq.
  destruct (responses w !! host) as [r|]; [| done].
  intros Hlt. by rewrite (proj2 (Z.ltb_lt _ _) Hlt).
Qed.

(** X20: with a resolver and an endpoint that take no negative time and a
    configuration without duplicate keys, a configured host that is stale
    when a scan begins (no entry, or an expiry that has passed) is queried
    exactly once in that scan if the scan completes, and its entry is then
    built from the resolver's answer. *)
Theorem stale_host_is_resolved (E : Env)
    (config : list (string * HostConfiguration)) (path host : string)
    (keys : list string) (w w1 : World) :
  causal E →
  NoDup keys →
  host ∈ keys →
  stale_in host w →
  for_stale_hosts E config path stale_check_predicate keys w = Returned tt w1 →
  dns_queries host (log w1) = S (dns_queries host (log w)) ∧
  ∃ r, responses w1 !! host = Some r ∧ resolved_entry E host r ∧
       clock w <= response_time r.
Proof.
  intros Hc Hnd. revert w.
  induction Hnd as [|key rest Hkey Hrest IH]; intros w Hin Hstale Hscan.
  - by apply elem_of_nil in Hin.
  - rewrite for_stale_hosts_cons in Hscan.
    destruct (scan_step E config path stale_check_predicate key w)
      as [[] w' | e w'] eqn:Hstep; [| done].
    destruct (decide (key = host)) as [-> | Hne].
    + rewrite (scan_step_stale _ _ _ _ _ Hstale) in Hstep.
      pose proof (loop_body_queries_self E config path host w) as Hq.
      rewrite Hstep in Hq. simpl in Hq.
      destruct (loop_body_returned _ _ _ _ _ _ Hstep)
        as (answers & Hdns & Hstore & _).
      pose proof (for_stale_hosts_queries_other E config path host rest w'
                    Hkey) as Hq'.
      pose proof (for_stale_hosts_other E config path host rest w' Hkey)
        as Hr'.
      rewrite Hscan in Hq', Hr'. simpl in Hq', Hr'.
      split; [congruence |].
      exists (response_of_answer E host w answers). split; [| split].
      * rewrite Hr', Hstore. apply lookup_insert_eq.
      * by exists (clock w), answers.
      * simpl. destruct Hc as [Hdns_time _].
        pose proof (Hdns_time host (clock w)). lia.
    + apply elem_of_cons in Hin as [-> | Hin]; [done |].
      pose proof (scan_step_other E config path key host w Hne) as Hr.
      pose proof (scan_step_queries E config path key host w Hne) as Hq.
      pose proof (scan_step_clock E config path key w Hc) as Ht.
      rewrite Hstep in Hr, Hq, Ht. simpl in Hr, Hq, Ht.
      destruct (IH w' Hin) as (Hq1 & r & Hr1 & Hres & Htime).
      * unfold stale_in in *. rewrite Hr.
        destruct (responses w !! host) as [r0|]; [lia | done].
      * exact Hscan.
      * split; [congruence |]. exists r. split; [done |].
        split; [done | lia].
Qed.

Lemma stale_host_is_resolved_witness :
  let w := world_at 1000 {["example.com" := mkDnsResponse "5.6.7.8" 900 600]} in
  ∃ w1,
    for_stale_hosts env_ok sample_config "response_cache.yml"
      stale_check_predicate ["example.com"] w = Returned tt w1 ∧
    dns_queries "example.com" (log w1) = S (dns_queries "example.com" (log w)) ∧
    ∃ r, responses w1 !! "example.com" = Some r ∧
         resolved_entry env_ok "example.com" r ∧
         clock w <= response_time r.
Proof.
  intros w. eexists. split; [vm_compute; reflexivity |].
  eapply (stale_host_is_resolved env_ok sample_config "response_cache.yml"
            "example.com" ["example.com"] w).
  - apply (causal_env_http (HttpStatus 204)).
  - apply (bool_decide_unpack _). vm_compute. exact I.
  - apply list_elem_of_here.
  - vm_compute. reflexivity.
  - vm_compute. reflexivity.
Defined.
